(** * Thumblify: the thumbnail controller and the client download helper

    A shallow embedding of
    - [server/controllers/ThumbnailController.ts]
      ([stylePrompts], [colorSchemeDescriptions], [generateThumbnail],
      [deleteThumbnail]), and
    - the download helpers of the client ([handleDownload] of
      [pages/MyGeneration.tsx] and [onDownload] of the preview panel).

    Conventions.  A field of a JSON body or of a document is a string or
    absent ([option string]); JavaScript's truthiness, template-literal
    conversion and property lookup are written out in module [Js].  The
    awaited calls of a handler (document store, generation provider, media
    host) get their outcome from a [World]; a handler is a function from
    the system state (documents plus the chronological trace of outside
    calls) to the new state and the handler's outcome. *)

From stdpp Require Import base strings gmap list.
From Stdlib Require Import QArith.QArith_base.

Close Scope Q_scope.
Open Scope string_scope.
Open Scope list_scope.

(** ** JavaScript values and strings *)

Module Js.

(** The double quote character, U+0022. *)
Definition dquote : string := String (Ascii.ascii_of_nat 34) EmptyString.

(** [!s] is true of the empty string and of [undefined]. *)
Definition truthy_string (s : string) : bool :=
  match s with
  | EmptyString => false
  | String _ _ => true
  end.

Definition truthy (o : option string) : bool :=
  match o with
  | Some s => truthy_string s
  | None => false
  end.

(** The values a property read on one of the controller's tables can
    give: a string of the table, [undefined], or what the table object
    inherits from [Object.prototype]. *)
Inductive Value : Type :=
| Undefined
| Str (s : string)
| BuiltinFunction (name : string)
| ObjectPrototype.

(** [`${v}`]: the string conversion of a template literal.  A built-in
    function prints as Node prints it. *)
Definition ToString (v : Value) : string :=
  match v with
  | Undefined => "undefined"
  | Str s => s
  | BuiltinFunction name => "function " +:+ name +:+ "() { [native code] }"
  | ObjectPrototype => "[object Object]"
  end.

(** [`${o}`] for a field that is a string or absent. *)
Definition template (o : option string) : string :=
  match o with
  | Some s => s
  | None => "undefined"
  end.

(** The property key of [obj[k]] when [k] is a string or [undefined]. *)
Definition ToPropertyKey (o : option string) : string := template o.

(** The properties every object literal inherits. *)
Definition Object_prototype : gmap string Value :=
  list_to_map
    [ ("constructor", BuiltinFunction "Object");
      ("__defineGetter__", BuiltinFunction "__defineGetter__");
      ("__defineSetter__", BuiltinFunction "__defineSetter__");
      ("hasOwnProperty", BuiltinFunction "hasOwnProperty");
      ("__lookupGetter__", BuiltinFunction "__lookupGetter__");
      ("__lookupSetter__", BuiltinFunction "__lookupSetter__");
      ("isPrototypeOf", BuiltinFunction "isPrototypeOf");
      ("propertyIsEnumerable", BuiltinFunction "propertyIsEnumerable");
      ("toString", BuiltinFunction "toString");
      ("valueOf", BuiltinFunction "valueOf");
      ("__proto__", ObjectPrototype);
      ("toLocaleString", BuiltinFunction "toLocaleString") ].

(** [obj[k]] on an object literal whose own properties are [own]: the
    own property if there is one, else the inherited one, else
    [undefined]. *)
Definition Get (own : gmap string string) (k : option string) : Value :=
  match own !! ToPropertyKey k with
  | Some s => Str s
  | None =>
      match Object_prototype !! ToPropertyKey k with
      | Some v => v
      | None => Undefined
      end
  end.

(** [drop n s]: [s] without its first [n] characters. *)
Fixpoint drop (n : nat) (s : string) : string :=
  match n, s with
  | O, _ => s
  | S _, EmptyString => EmptyString
  | S n', String _ s' => drop n' s'
  end.

(** [s.replace(pat, rep)] for a string pattern and a replacement without
    [$]: the first occurrence of [pat], scanning from the left, is
    replaced; without an occurrence [s] is returned. *)
Fixpoint replace (pat rep s : string) : string :=
  if String.prefix pat s then rep +:+ drop (String.length pat) s
  else match s with
       | EmptyString => EmptyString
       | String c s' => String c (replace pat rep s')
       end.

(** [s.includes(pat)]. *)
Fixpoint includes (pat s : string) : bool :=
  String.prefix pat s
  || match s with
     | EmptyString => false
     | String _ s' => includes pat s'
     end.

(** The number of positions of [s] at which [pat] occurs (occurrences
    may overlap). *)
Fixpoint occurrences (pat s : string) : nat :=
  (if String.prefix pat s then 1 else 0)
  + match s with
    | EmptyString => 0
    | String _ s' => occurrences pat s'
    end.

End Js.

(** ** [Buffer.from(data, "base64")] *)

Module Buffer.

(** A buffer is its bytes, each below 256. *)
Definition t : Type := list N.

(** The value of a base64 digit, of the standard or of the URL-safe
    alphabet. *)
Definition sextet (c : Ascii.ascii) : option N :=
  let n := Ascii.N_of_ascii c in
  if (65 <=? n)%N && (n <=? 90)%N then Some (n - 65)%N
  else if (97 <=? n)%N && (n <=? 122)%N then Some (n - 71)%N
  else if (48 <=? n)%N && (n <=? 57)%N then Some (n + 4)%N
  else if (n =? 43)%N || (n =? 45)%N then Some 62%N
  else if (n =? 47)%N || (n =? 95)%N then Some 63%N
  else None.

(** The digits of the text: characters outside the alphabet are skipped
    and decoding stops at the first padding character. *)
Fixpoint sextets (s : string) : list N :=
  match s with
  | EmptyString => []
  | String c s' =>
      if (Ascii.N_of_ascii c =? 61)%N then []
      else match sextet c with
           | Some v => v :: sextets s'
           | None => sextets s'
           end
  end.

(** Four digits give three bytes; a last group of three gives two, of
    two gives one, and a single left-over digit gives none. *)
Fixpoint bytes (l : list N) : list N :=
  match l with
  | a :: b :: c :: d :: l' =>
      N.lor (N.shiftl a 2) (N.shiftr b 4)
      :: N.lor (N.shiftl (N.land b 15) 4) (N.shiftr c 2)
      :: N.lor (N.shiftl (N.land c 3) 6) d
      :: bytes l'
  | [a; b; c] =>
      [ N.lor (N.shiftl a 2) (N.shiftr b 4);
        N.lor (N.shiftl (N.land b 15) 4) (N.shiftr c 2) ]
  | [a; b] => [ N.lor (N.shiftl a 2) (N.shiftr b 4) ]
  | _ => []
  end.

Definition from_base64 (data : string) : t := bytes (sextets data).

End Buffer.

(** ** The data of the controller *)

(** A thrown value: what the handlers read of it is [error.message]. *)
Record JsError : Type := Error { message : option string }.

(** The result of an awaited call. *)
Inductive Outcome (A : Type) : Type :=
| Resolved (a : A)
| Rejected (e : JsError)
| Pending.
Arguments Resolved {A} a.
Arguments Rejected {A} e.
Arguments Pending {A}.

(** Identifiers of documents, numbered in the order of creation.  The
    cast of a route parameter to an identifier belongs to the store call:
    a parameter that cannot be cast is a rejection of that call. *)
Definition ObjectId : Type := nat.

(** What [generateThumbnail] passes to [Thumbnail.create]. *)
Record ThumbnailInput : Type := {
  in_userId : string;
  in_title : option string;
  in_prompt_used : option string;
  in_user_prompt : option string;
  in_style : option string;
  in_aspect_ratio : option string;
  in_color_scheme : option string;
  in_text_overlay : option bool;
  in_isGenerating : bool
}.

(** A document of the thumbnail collection (the GenerationRecord). *)
Record Thumbnail : Type := {
  _id : ObjectId;
  userId : string;
  title : option string;
  prompt_used : option string;
  user_prompt : option string;
  style : option string;
  aspect_ratio : option string;
  color_scheme : option string;
  text_overlay : option bool;
  isGenerating : bool;
  image_url : option string
}.

(** [thumbnail.image_url = url; thumbnail.isGenerating = flag]. *)
Definition assign (t : Thumbnail) (url : option string) (flag : bool) : Thumbnail :=
  {| _id := _id t; userId := userId t; title := title t;
     prompt_used := prompt_used t; user_prompt := user_prompt t;
     style := style t; aspect_ratio := aspect_ratio t;
     color_scheme := color_scheme t; text_overlay := text_overlay t;
     isGenerating := flag; image_url := url |}.

(** The slice of the provider's SDK types that the handler touches. *)
Inductive HarmCategory : Type :=
| HARM_CATEGORY_HATE_SPEECH
| HARM_CATEGORY_DANGEROUS_CONTENT
| HARM_CATEGORY_SEXUALLY_EXPLICIT
| HARM_CATEGORY_HARASSMENT.

Inductive HarmBlockThreshold : Type := OFF.

Record ImageConfig : Type := { aspectRatio : string; imageSize : string }.

Record GenerateContentConfig : Type := {
  maxOutputTokens : N;
  temperature : Q;
  topP : Q;
  responseModalities : list string;
  imageConfig : ImageConfig;
  safetySettings : list (HarmCategory * HarmBlockThreshold)
}.

Record GenerateContentParameters : Type := {
  model : string;
  contents : list string;
  config : GenerateContentConfig
}.

Record Blob : Type := { data : option string }.
Record Part : Type := { inlineData : option Blob }.
Record Content : Type := { parts : option (list Part) }.
Record Candidate : Type := { content : option Content }.
Record GenerateContentResponse : Type := { candidates : option (list Candidate) }.

(** The media host's upload call. *)
Record UploadApiOptions : Type := { resource_type : string; folder : string }.
Record UploadApiResponse : Type := { secure_url : string }.

(** Requests: the session's [userId], and the JSON body or the route
    parameter. *)
Record GenerateRequest : Type := {
  g_session_userId : option string;
  body_title : option string;
  body_prompt : option string;
  body_style : option string;
  body_aspect_ratio : option string;
  body_color_scheme : option string;
  body_text_overlay : option bool
}.

Record DeleteRequest : Type := {
  d_session_userId : option string;
  params_id : ObjectId
}.

(** [res.status(n).json(body)]. *)
Inductive Body : Type :=
| MessageBody (msg : option string)
| ThumbnailBody (success : bool) (thumbnail : Thumbnail)
| FailureBody (success : bool) (msg : string).

Record Response : Type := { status : nat; json : Body }.

(** ** The system state and the outside world *)

(** The calls a handler makes to the outside, in the order they happen.
    [Created], [Saved] and [Deleted] are the writes of the document store
    that took effect; [GenerateContentCalled] and [UploadCalled] are the
    invocations of the provider and of the media host. *)
Inductive Event : Type :=
| Created (doc : Thumbnail)
| GenerateContentCalled (p : GenerateContentParameters)
| UploadCalled (opts : UploadApiOptions) (buf : Buffer.t)
| Saved (before after : Thumbnail)
| Deleted (doc : Thumbnail).

Record Sys : Type := {
  docs : list Thumbnail;
  next_id : ObjectId;
  trace : list Event
}.

(** The outcome of each awaited call of one handler invocation. *)
Record World : Type := {
  create_result : ThumbnailInput -> Outcome unit;
  generateContent_result :
    GenerateContentParameters -> Outcome (option GenerateContentResponse);
  upload_result : UploadApiOptions -> Buffer.t -> Outcome UploadApiResponse;
  save_result : Thumbnail -> Outcome unit;
  findOneAndDelete_result : ObjectId -> string -> Outcome unit
}.

(** Handler code: state passing, with rejection and non-return of an
    awaited call cutting the rest short. *)
Definition M (A : Type) : Type := Sys -> Sys * Outcome A.

Definition ret {A : Type} (a : A) : M A := fun s => (s, Resolved a).

Definition throw {A : Type} (e : JsError) : M A := fun s => (s, Rejected e).

Definition bind {A B : Type} (m : M A) (k : A -> M B) : M B :=
  fun s =>
    match m s with
    | (s', Resolved a) => k a s'
    | (s', Rejected e) => (s', Rejected e)
    | (s', Pending) => (s', Pending)
    end.

Notation "x <- m ;; k" := (bind m (fun x => k))
  (at level 100, m at next level, right associativity).

(** [try { m } catch (error) { h }]. *)
Definition try_catch {A : Type} (m : M A) (h : JsError -> M A) : M A :=
  fun s =>
    match m s with
    | (s', Rejected e) => h e s'
    | r => r
    end.

Definition emit (e : Event) (s : Sys) : Sys :=
  {| docs := docs s; next_id := next_id s; trace := trace s ++ [e] |}.

(** Awaiting a call that touches nothing of the state but the trace. *)
Definition await {A : Type} (e : Event) (o : Outcome A) : M A :=
  fun s => (emit e s, o).

(** ** The thumbnail collection *)

(** Modelled from the spec: the Mongoose model [models/Thumbnail] is not
    among the sources.  A created document gets a fresh identifier and
    the fields it was created with, and has no image reference; [save]
    writes the two paths the handler assigned; [findOneAndDelete] removes
    the first document that matches the filter.  Each call can also be
    rejected by the store, or never return, as the [World] says. *)
Definition new_document (id : ObjectId) (i : ThumbnailInput) : Thumbnail :=
  {| _id := id; userId := in_userId i; title := in_title i;
     prompt_used := in_prompt_used i; user_prompt := in_user_prompt i;
     style := in_style i; aspect_ratio := in_aspect_ratio i;
     color_scheme := in_color_scheme i; text_overlay := in_text_overlay i;
     isGenerating := in_isGenerating i; image_url := None |}.

Definition Thumbnail_create (w : World) (i : ThumbnailInput) : M Thumbnail :=
  fun s =>
    match create_result w i with
    | Resolved _ =>
        let doc := new_document (next_id s) i in
        ({| docs := docs s ++ [doc]; next_id := S (next_id s);
            trace := trace s ++ [Created doc] |}, Resolved doc)
    | Rejected e => (s, Rejected e)
    | Pending => (s, Pending)
    end.

(** The first document with identifier [id]. *)
Fixpoint findById (id : ObjectId) (l : list Thumbnail) : option Thumbnail :=
  match l with
  | [] => None
  | d :: l' => if Nat.eqb (_id d) id then Some d else findById id l'
  end.

(** The first document with identifier [id] replaced by [d']. *)
Fixpoint updateById (id : ObjectId) (d' : Thumbnail) (l : list Thumbnail)
  : list Thumbnail :=
  match l with
  | [] => []
  | d :: l' => if Nat.eqb (_id d) id then d' :: l' else d :: updateById id d' l'
  end.

Definition Thumbnail_save (w : World) (t : Thumbnail) : M unit :=
  fun s =>
    match save_result w t with
    | Resolved _ =>
        match findById (_id t) (docs s) with
        | Some before =>
            let after := assign before (image_url t) (isGenerating t) in
            ({| docs := updateById (_id t) after (docs s); next_id := next_id s;
                trace := trace s ++ [Saved before after] |}, Resolved tt)
        | None => (s, Rejected (Error (Some "No document found for query")))
        end
    | Rejected e => (s, Rejected e)
    | Pending => (s, Pending)
    end.

(** The filter [{ _id: id, userId }]. *)
Definition matches (id : ObjectId) (uid : string) (d : Thumbnail) : bool :=
  Nat.eqb (_id d) id && String.eqb (userId d) uid.

(** The first document satisfying [p], and the list without it. *)
Fixpoint remove_first (p : Thumbnail -> bool) (l : list Thumbnail)
  : option Thumbnail * list Thumbnail :=
  match l with
  | [] => (None, [])
  | d :: l' =>
      if p d then (Some d, l')
      else let (r, l'') := remove_first p l' in (r, d :: l'')
  end.

Definition Thumbnail_findOneAndDelete (w : World) (id : ObjectId) (uid : string)
  : M (option Thumbnail) :=
  fun s =>
    match findOneAndDelete_result w id uid with
    | Resolved _ =>
        match remove_first (matches id uid) (docs s) with
        | (Some d, l') =>
            ({| docs := l'; next_id := next_id s;
                trace := trace s ++ [Deleted d] |}, Resolved (Some d))
        | (None, _) => (s, Resolved None)
        end
    | Rejected e => (s, Rejected e)
    | Pending => (s, Pending)
    end.

(** ** The provider and the media host *)

Definition ai_models_generateContent (w : World) (p : GenerateContentParameters)
  : M (option GenerateContentResponse) :=
  await (GenerateContentCalled p) (generateContent_result w p).

(** [cloudinary.uploader.upload_stream(opts, callback)] wrapped in a
    promise, with [stream.end(buf)]. *)
Definition cloudinary_upload_stream (w : World) (opts : UploadApiOptions)
  (buf : Buffer.t) : M UploadApiResponse :=
  await (UploadCalled opts buf) (upload_result w opts buf).

(** ** [ThumbnailController.ts] *)

Module Controller.

(* ---------------- STYLE PROMPTS ---------------- *)

Definition stylePrompts : gmap string string :=
  list_to_map
    [ ("Bold & Graphic",
       "eye-catching thumbnail, bold typography, vibrant colors, expressive facial reaction, dramatic lighting, high contrast, click-worthy composition, professional style");
      ("Tech/Futuristic",
       "futuristic thumbnail, sleek modern design, digital UI elements, glowing accents, holographic effects, cyber-tech aesthetic, sharp lighting, high-tech atmosphere");
      ("Minimalist",
       "minimalist thumbnail, clean layout, simple shapes, limited color palette, plenty of negative space, modern flat design, clear focal point");
      ("Photorealistic",
       "photorealistic thumbnail, ultra-realistic lighting, natural skin tones, candid moment, DSLR-style photography, lifestyle realism, shallow depth of field");
      ("Illustrated",
       "illustrated thumbnail, custom digital illustration, stylized characters, bold outlines, vibrant colors, creative cartoon or vector art style") ].

(* ---------------- COLOR SCHEMES ---------------- *)

Definition colorSchemeDescriptions : gmap string string :=
  list_to_map
    [ ("vibrant",
       "vibrant and energetic colors, high saturation, bold contrasts, eye-catching palette");
      ("sunset",
       "warm sunset tones, orange pink and purple hues, soft gradients, cinematic glow");
      ("forest",
       "natural green tones, earthy colors, calm and organic palette, fresh atmosphere");
      ("neon",
       "neon glow effects, electric blues and pinks, cyberpunk lighting, high contrast glow");
      ("purple",
       "purple-dominant color palette, magenta and violet tones, modern and stylish mood");
      ("monochrome",
       "black and white color scheme, high contrast, dramatic lighting, timeless aesthetic");
      ("ocean",
       "cool blue and teal tones, aquatic color palette, fresh and clean atmosphere");
      ("pastel",
       "soft pastel colors, low saturation, gentle tones, calm and friendly aesthetic") ].

(* ---------------- GENERATE THUMBNAIL ---------------- *)

(** The four pieces of text the handler puts together. *)
Definition style_clause (style title : option string) : string :=
  "Create a " +:+ Js.ToString (Js.Get stylePrompts style)
  +:+ " thumbnail for " +:+ Js.dquote +:+ Js.template title +:+ Js.dquote +:+ ". ".

Definition color_clause (color_scheme : option string) : string :=
  "Use a " +:+ Js.ToString (Js.Get colorSchemeDescriptions color_scheme)
  +:+ " color scheme. ".

Definition details_clause (user_prompt : option string) : string :=
  "Additional details: " +:+ Js.template user_prompt +:+ ". ".

Definition closing_clause (aspect_ratio : string) : string :=
  "The thumbnail should be " +:+ aspect_ratio
  +:+ ", visually stunning, bold, professional, and optimized for maximum click-through rate.".

(** Prompt building: [let prompt = ...] followed by the three [prompt +=]. *)
Definition build_prompt (title user_prompt style : option string)
  (aspect_ratio : string) (color_scheme : option string) : string :=
  let prompt := style_clause style title in
  let prompt :=
    if Js.truthy color_scheme then prompt +:+ color_clause color_scheme
    else prompt in
  let prompt :=
    if Js.truthy user_prompt then prompt +:+ details_clause user_prompt
    else prompt in
  prompt +:+ closing_clause aspect_ratio.

(** AI config. *)
Definition generationConfig (aspect_ratio : string) : GenerateContentConfig :=
  {| maxOutputTokens := 32768;
     temperature := (1 # 1)%Q;
     topP := (95 # 100)%Q;
     responseModalities := ["IMAGE"];
     imageConfig := {| aspectRatio := aspect_ratio; imageSize := "1K" |};
     safetySettings :=
       [ (HARM_CATEGORY_HATE_SPEECH, OFF);
         (HARM_CATEGORY_DANGEROUS_CONTENT, OFF);
         (HARM_CATEGORY_SEXUALLY_EXPLICIT, OFF);
         (HARM_CATEGORY_HARASSMENT, OFF) ] |}.

(** [response?.candidates?.[0]?.content?.parts]. *)
Definition response_parts (response : option GenerateContentResponse)
  : option (list Part) :=
  match response with
  | None => None
  | Some r =>
      match candidates r with
      | None => None
      | Some cs =>
          match cs !! 0 with
          | None => None
          | Some c =>
              match content c with
              | None => None
              | Some ct => parts ct
              end
          end
      end
  end.

(** [part.inlineData?.data], when truthy. *)
Definition inline_payload (part : Part) : option string :=
  match inlineData part with
  | None => None
  | Some b => if Js.truthy (data b) then data b else None
  end.

(** One turn of [for (const part of parts)]. *)
Definition scan_part (imageBuffer : option Buffer.t) (part : Part)
  : option Buffer.t :=
  match inline_payload part with
  | Some d => Some (Buffer.from_base64 d)
  | None => imageBuffer
  end.

Definition scan_parts (ps : list Part) : option Buffer.t :=
  fold_left scan_part ps None.

(** [error.message || "Failed to generate thumbnail"]. *)
Definition message_or (e : JsError) (fallback : string) : string :=
  match message e with
  | Some m => if Js.truthy_string m then m else fallback
  | None => fallback
  end.

Definition unauthorized : Response :=
  {| status := 401; json := MessageBody (Some "Unauthorized") |}.

(** The destructured body: [aspect_ratio = "16:9"] when the body has
    none. *)
Definition aspect_ratio_of (req : GenerateRequest) : string :=
  default "16:9" (body_aspect_ratio req).

(** The argument of [Thumbnail.create]. *)
Definition create_input (userId : string) (req : GenerateRequest)
  : ThumbnailInput :=
  {| in_userId := userId;
     in_title := body_title req;
     in_prompt_used := body_prompt req;
     in_user_prompt := body_prompt req;
     in_style := body_style req;
     in_aspect_ratio := Some (aspect_ratio_of req);
     in_color_scheme := body_color_scheme req;
     in_text_overlay := body_text_overlay req;
     in_isGenerating := true |}.

Definition prompt_of (req : GenerateRequest) : string :=
  build_prompt (body_title req) (body_prompt req) (body_style req)
    (aspect_ratio_of req) (body_color_scheme req).

(** The argument of [ai.models.generateContent]. *)
Definition generate_params (req : GenerateRequest) : GenerateContentParameters :=
  {| model := "gemini-3-pro-image-preview";
     contents := [prompt_of req];
     config := generationConfig (aspect_ratio_of req) |}.

Definition upload_options : UploadApiOptions :=
  {| resource_type := "image"; folder := "thumbnails" |}.

(** The response of the [catch] block. *)
Definition generate_failed (error : JsError) : Response :=
  {| status := 500;
     json := FailureBody false (message_or error "Failed to generate thumbnail") |}.

(** The body of the [try] block once [userId] is known to be truthy. *)
Definition generate_body (w : World) (userId : string) (req : GenerateRequest)
  : M Response :=
  (* Create DB record immediately *)
  thumbnail <- Thumbnail_create w (create_input userId req) ;;
  (* Generate image *)
  response <- ai_models_generateContent w (generate_params req) ;;
  match response_parts response with
  | None => throw (Error (Some "Invalid AI response"))
  | Some parts =>
      match scan_parts parts with
      | None => throw (Error (Some "No image returned from AI"))
      | Some imageBuffer =>
          (* Upload directly to the media host *)
          uploadResult <- cloudinary_upload_stream w upload_options imageBuffer ;;
          (* Update DB *)
          let thumbnail := assign thumbnail (Some (secure_url uploadResult)) false in
          _ <- Thumbnail_save w thumbnail ;;
          ret {| status := 200; json := ThumbnailBody true thumbnail |}
      end
  end.

Definition generateThumbnail (w : World) (req : GenerateRequest) : M Response :=
  try_catch
    (match g_session_userId req with
     | Some userId =>
         if Js.truthy_string userId then generate_body w userId req
         else ret unauthorized
     | None => ret unauthorized
     end)
    (fun error => ret (generate_failed error)).

(* ---------------- DELETE THUMBNAIL ---------------- *)

Definition deleted : Response :=
  {| status := 200; json := MessageBody (Some "Thumbnail deleted successfully") |}.

Definition delete_failed (error : JsError) : Response :=
  {| status := 500; json := MessageBody (message error) |}.

Definition deleteThumbnail (w : World) (req : DeleteRequest) : M Response :=
  try_catch
    (let id := params_id req in
     match d_session_userId req with
     | Some userId =>
         if Js.truthy_string userId then
           _ <- Thumbnail_findOneAndDelete w id userId ;;
           ret deleted
         else ret unauthorized
     | None => ret unauthorized
     end)
    (fun error => ret (delete_failed error)).

(** A handler invocation, and a sequence of them run one after the
    other. *)
Inductive Invocation : Type :=
| Generate (w : World) (req : GenerateRequest)
| Delete (w : World) (req : DeleteRequest).

Definition invoke (i : Invocation) (s : Sys) : Sys :=
  match i with
  | Generate w req => fst (generateThumbnail w req s)
  | Delete w req => fst (deleteThumbnail w req s)
  end.

Definition run (calls : list Invocation) (s : Sys) : Sys :=
  fold_left (fun s i => invoke i s) calls s.

End Controller.

(** ** The client's download helpers *)

Module Client.

(** The address given to the link: [image_url.replace("/upload/",
    "/upload/fl_attachment/")]. *)
Definition downloadUrl (image_url : string) : string :=
  Js.replace "/upload/" "/upload/fl_attachment/" image_url.

(** [handleDownload(image_url, id)] of the gallery page: the [href] and the
    [download] attribute of the link that is clicked, or nothing when
    [image_url] is falsy. *)
Definition handleDownload (image_url : option string) (id : string)
  : option (string * string) :=
  if negb (Js.truthy image_url) then None
  else Some (downloadUrl (Js.template image_url),
             "thumbnail-" +:+ id +:+ ".png").

(** [onDownload] of the preview panel, for a thumbnail that is [null] or
    has an [image_url] and an [_id], each of which may be absent. *)
Definition onDownload (thumbnail : option (option string * option string))
  : option (string * string) :=
  match thumbnail with
  | None => None
  | Some (image_url, id) =>
      if negb (Js.truthy image_url) then None
      else Some (downloadUrl (Js.template image_url),
                 "thumbnail-"
                 +:+ (if Js.truthy id then Js.template id else "download")
                 +:+ ".png")
  end.

End Client.


(** ** Vocabulary of the statements *)

(** The session carries a truthy [userId], namely [uid]. *)
Definition authenticated (session_userId : option string) (uid : string) : Prop :=
  session_userId = Some uid /\ Js.truthy_string uid = true.

(** What a handler run from [s] to [s'] added to the trace. *)
Definition new_events (s s' : Sys) : list Event :=
  drop (length (trace s)) (trace s').

(** The buffers handed to the media host, in order. *)
Definition uploads (tr : list Event) : list Buffer.t :=
  omap (fun e => match e with UploadCalled _ b => Some b | _ => None end) tr.

(** The writes of [save] to the document [id], in order. *)
Definition saves_of (id : ObjectId) (tr : list Event) : list (Thumbnail * Thumbnail) :=
  omap (fun e => match e with
                 | Saved b a => if Nat.eqb (_id b) id then Some (b, a) else None
                 | _ => None
                 end) tr.

(** The inline image payloads of a parts list, in order. *)
Definition payloads (ps : list Part) : list string :=
  omap Controller.inline_payload ps.

(** Identifiers in the store are distinct and were handed out already. *)
Definition wf (s : Sys) : Prop :=
  NoDup (_id <$> docs s) /\ Forall (fun d => _id d < next_id s) (docs s).

(** The answer [out] of a generate run from [s] to [s'] is the failure
    answer for the thrown [e], and the record [doc] it created is the one
    added to the store, unchanged. *)
Definition fails_with (s s' : Sys) (out : Outcome Response) (doc : Thumbnail)
  (e : JsError) : Prop :=
  (exists msg,
     out = Resolved {| status := 500; json := FailureBody false msg |}
     /\ (forall m, message e = Some m -> m <> "" -> msg = m)
     /\ (message e = None \/ message e = Some "" ->
         msg = "Failed to generate thumbnail"))
  /\ docs s' = docs s ++ [doc]
  /\ isGenerating doc = true
  /\ image_url doc = None.

(** Every awaited call of a generate run resolves, and the provider's
    response holds an inline image payload. *)
Definition cooperative (w : World) : Prop :=
  (forall i, create_result w i = Resolved tt)
  /\ (forall p, exists r ps,
        generateContent_result w p = Resolved r
        /\ Controller.response_parts r = Some ps /\ payloads ps <> [])
  /\ (forall o b, exists r, upload_result w o b = Resolved r)
  /\ (forall t, save_result w t = Resolved tt).

(** A write of [save] sets the image reference of a record that had none
    and clears its in-progress flag, which was set. *)
Definition completes (before after : Thumbnail) : Prop :=
  _id after = _id before
  /\ isGenerating before = true /\ isGenerating after = false
  /\ image_url before = None /\ is_Some (image_url after).

(** Every [save] of the trace completes a record whose identifier lies in
    [lo, hi). *)
Definition saves_complete (lo hi : ObjectId) (tr : list Event) : Prop :=
  forall b a, Saved b a ∈ tr -> lo <= _id b < hi /\ completes b a.

(** From [s] to [s'] the store stays well formed, identifiers are only
    handed out, the documents that were there are unchanged or gone, and
    the trace grows by writes of [save] that complete records created in
    between, at most one per record. *)
Definition step_ok (s s' : Sys) : Prop :=
  wf s'
  /\ next_id s <= next_id s'
  /\ (forall d, d ∈ docs s' -> _id d < next_id s -> d ∈ docs s)
  /\ exists new,
       trace s' = trace s ++ new
       /\ saves_complete (next_id s) (next_id s') new
       /\ forall id, length (saves_of id new) <= 1.

(** ** The runs of [generateThumbnail]

    One rule per way through the handler: every [await] can resolve, be
    rejected or stay pending, and the two [throw]s end the [try] block. *)

Section GenerateRun.

Import Controller.

Variables (w : World) (req : GenerateRequest) (s : Sys).

Definition created_doc (uid : string) : Thumbnail :=
  new_document (next_id s) (create_input uid req).

Definition after_create (uid : string) : Sys :=
  {| docs := docs s ++ [created_doc uid];
     next_id := S (next_id s);
     trace := trace s ++ [Created (created_doc uid)] |}.

Definition after_generate (uid : string) : Sys :=
  emit (GenerateContentCalled (generate_params req)) (after_create uid).

Definition after_upload (uid : string) (buf : Buffer.t) : Sys :=
  emit (UploadCalled upload_options buf) (after_generate uid).

Definition finished_doc (uid : string) (r : UploadApiResponse) : Thumbnail :=
  assign (created_doc uid) (Some (secure_url r)) false.

Definition after_save (uid : string) (buf : Buffer.t) (before after : Thumbnail) : Sys :=
  {| docs := updateById (next_id s) after (docs (after_upload uid buf));
     next_id := S (next_id s);
     trace := trace (after_upload uid buf) ++ [Saved before after] |}.

Inductive GenerateRun : Sys * Outcome Response -> Prop :=
| run_unauthorized :
    Js.truthy (g_session_userId req) = false ->
    GenerateRun (s, Resolved unauthorized)
| run_create_rejected uid e :
    authenticated (g_session_userId req) uid ->
    create_result w (create_input uid req) = Rejected e ->
    GenerateRun (s, Resolved (generate_failed e))
| run_create_pending uid :
    authenticated (g_session_userId req) uid ->
    create_result w (create_input uid req) = Pending ->
    GenerateRun (s, Pending)
| run_provider_rejected uid e :
    authenticated (g_session_userId req) uid ->
    create_result w (create_input uid req) = Resolved tt ->
    generateContent_result w (generate_params req) = Rejected e ->
    GenerateRun (after_generate uid, Resolved (generate_failed e))
| run_provider_pending uid :
    authenticated (g_session_userId req) uid ->
    create_result w (create_input uid req) = Resolved tt ->
    generateContent_result w (generate_params req) = Pending ->
    GenerateRun (after_generate uid, Pending)
| run_invalid_response uid response :
    authenticated (g_session_userId req) uid ->
    create_result w (create_input uid req) = Resolved tt ->
    generateContent_result w (generate_params req) = Resolved response ->
    response_parts response = None ->
    GenerateRun (after_generate uid,
                 Resolved (generate_failed (Error (Some "Invalid AI response"))))
| run_no_image uid response ps :
    authenticated (g_session_userId req) uid ->
    create_result w (create_input uid req) = Resolved tt ->
    generateContent_result w (generate_params req) = Resolved response ->
    response_parts response = Some ps ->
    scan_parts ps = None ->
    GenerateRun (after_generate uid,
                 Resolved (generate_failed (Error (Some "No image returned from AI"))))
| run_upload_rejected uid response ps buf e :
    authenticated (g_session_userId req) uid ->
    create_result w (create_input uid req) = Resolved tt ->
    generateContent_result w (generate_params req) = Resolved response ->
    response_parts response = Some ps ->
    scan_parts ps = Some buf ->
    upload_result w upload_options buf = Rejected e ->
    GenerateRun (after_upload uid buf, Resolved (generate_failed e))
| run_upload_pending uid response ps buf :
    authenticated (g_session_userId req) uid ->
    create_result w (create_input uid req) = Resolved tt ->
    generateContent_result w (generate_params req) = Resolved response ->
    response_parts response = Some ps ->
    scan_parts ps = Some buf ->
    upload_result w upload_options buf = Pending ->
    GenerateRun (after_upload uid buf, Pending)
| run_save_rejected uid response ps buf r e :
    authenticated (g_session_userId req) uid ->
    create_result w (create_input uid req) = Resolved tt ->
    generateContent_result w (generate_params req) = Resolved response ->
    response_parts response = Some ps ->
    scan_parts ps = Some buf ->
    upload_result w upload_options buf = Resolved r ->
    save_result w (finished_doc uid r) = Rejected e
    \/ (save_result w (finished_doc uid r) = Resolved tt
        /\ findById (next_id s) (docs s ++ [created_doc uid]) = None
        /\ e = Error (Some "No document found for query")) ->
    GenerateRun (after_upload uid buf, Resolved (generate_failed e))
| run_save_pending uid response ps buf r :
    authenticated (g_session_userId req) uid ->
    create_result w (create_input uid req) = Resolved tt ->
    generateContent_result w (generate_params req) = Resolved response ->
    response_parts response = Some ps ->
    scan_parts ps = Some buf ->
    upload_result w upload_options buf = Resolved r ->
    save_result w (finished_doc uid r) = Pending ->
    GenerateRun (after_upload uid buf, Pending)
| run_success uid response ps buf r before :
    authenticated (g_session_userId req) uid ->
    create_result w (create_input uid req) = Resolved tt ->
    generateContent_result w (generate_params req) = Resolved response ->
    response_parts response = Some ps ->
    scan_parts ps = Some buf ->
    upload_result w upload_options buf = Resolved r ->
    save_result w (finished_doc uid r) = Resolved tt ->
    findById (next_id s) (docs s ++ [created_doc uid]) = Some before ->
    GenerateRun
      (after_save uid buf before (assign before (Some (secure_url r)) false),
       Resolved {| status := 200;
                   json := ThumbnailBody true (finished_doc uid r) |}).

End GenerateRun.

(** ** Sample requests, worlds and stores *)

Module Sample.

Definition image_part (d : string) : Part :=
  {| inlineData := Some {| data := Some d |} |}.

Definition text_part : Part := {| inlineData := None |}.

Definition response_with (ps : list Part) : option GenerateContentResponse :=
  Some {| candidates := Some [ {| content := Some {| parts := Some ps |} |} ] |}.

Definition stored_url : string :=
  "https://res.cloudinary.com/demo/image/upload/v1/thumbnails/abc.png".

(** A world in which the store accepts every call, with the given outcomes
    of the provider and of the media host. *)
Definition world (provider : Outcome (option GenerateContentResponse))
  (upload : Outcome UploadApiResponse) : World :=
  {| create_result := fun _ => Resolved tt;
     generateContent_result := fun _ => provider;
     upload_result := fun _ _ => upload;
     save_result := fun _ => Resolved tt;
     findOneAndDelete_result := fun _ _ => Resolved tt |}.

Definition uploaded : Outcome UploadApiResponse :=
  Resolved {| secure_url := stored_url |}.

Definition one_image : World :=
  world (Resolved (response_with [image_part "AAAA"])) uploaded.

(** Two inline payloads with a text part between them. *)
Definition three_parts : list Part :=
  [image_part "AAAA"; text_part; image_part "/w=="].

Definition two_images : World :=
  world (Resolved (response_with three_parts)) uploaded.

Definition no_image : World :=
  world (Resolved (response_with [text_part])) uploaded.

Definition provider_hangs : World := world Pending uploaded.

Definition provider_fails (e : JsError) : World := world (Rejected e) uploaded.

(** A world whose store rejects [findOneAndDelete]. *)
Definition store_fails (e : JsError) : World :=
  {| create_result := fun _ => Resolved tt;
     generateContent_result := fun _ => Pending;
     upload_result := fun _ _ => Pending;
     save_result := fun _ => Resolved tt;
     findOneAndDelete_result := fun _ _ => Rejected e |}.

Definition request : GenerateRequest :=
  {| g_session_userId := Some "u1";
     body_title := Some "10 sleep tips";
     body_prompt := Some "";
     body_style := Some "Minimalist";
     body_aspect_ratio := Some "1:1";
     body_color_scheme := Some "pastel";
     body_text_overlay := Some true |}.

Definition request_without_ratio : GenerateRequest :=
  {| g_session_userId := Some "u1";
     body_title := Some "10 sleep tips";
     body_prompt := Some "at night";
     body_style := Some "Minimalist";
     body_aspect_ratio := None;
     body_color_scheme := None;
     body_text_overlay := Some true |}.

Definition request_with_style (style color_scheme : string) : GenerateRequest :=
  {| g_session_userId := Some "u1";
     body_title := Some "10 sleep tips";
     body_prompt := None;
     body_style := Some style;
     body_aspect_ratio := Some "1:1";
     body_color_scheme := Some color_scheme;
     body_text_overlay := Some true |}.

(** Tags that are keys of neither table: names every object inherits,
    and the default style of the client form with a made-up color. *)
Definition inherited_names : GenerateRequest :=
  request_with_style "toString" "constructor".

Definition unknown_tags : GenerateRequest :=
  request_with_style "Bold and Graphic" "teal".

Definition silent_error : JsError := Error (Some "").

Definition quota_error : JsError := Error (Some "quota exceeded").

Definition cast_error : JsError := Error (Some "Cast to ObjectId failed").

(** A media URL whose path has the flagged segment after [/upload/]. *)
Definition flagged_url : string :=
  "https://res.cloudinary.com/demo/image/upload/v1/thumbnails/upload/fl_attachment/x.png".

Definition empty : Sys := {| docs := []; next_id := 0; trace := [] |}.

(** A store with one record of each of two users. *)
Definition doc_of (id : ObjectId) (owner : string) : Thumbnail :=
  new_document id (Controller.create_input owner request).

Definition two_owners : Sys :=
  {| docs := [doc_of 0 "u1"; doc_of 1 "u2"]; next_id := 2; trace := [] |}.

Definition delete_request (uid : string) (id : ObjectId) : DeleteRequest :=
  {| d_session_userId := Some uid; params_id := id |}.

(** Two generations, a deletion by the owner of the first record and a
    deletion attempted by somebody else. *)
Definition session : list Controller.Invocation :=
  [ Controller.Generate one_image request;
    Controller.Generate no_image request_without_ratio;
    Controller.Delete one_image (delete_request "u2" 1);
    Controller.Delete one_image (delete_request "u1" 0) ].

End Sample.

(** ** Client side: text helpers and the HTTP client *)

Module JsString.

(** Strings are sequences of UTF-16 code units, here those below 256;
    among them the white space of [trim] is tab, line feed, vertical tab,
    form feed, carriage return, space and no-break space. *)
Definition is_white_space (c : Ascii.ascii) : bool :=
  let n := Ascii.N_of_ascii c in
  ((9 <=? n)%N && (n <=? 13)%N) || (n =? 32)%N || (n =? 160)%N.

Fixpoint trimStart (s : string) : string :=
  match s with
  | EmptyString => EmptyString
  | String c s' => if is_white_space c then trimStart s' else s
  end.

Fixpoint trimEnd (s : string) : string :=
  match s with
  | EmptyString => EmptyString
  | String c s' =>
      match trimEnd s' with
      | EmptyString => if is_white_space c then EmptyString else String c EmptyString
      | t => String c t
      end
  end.

(** [s.trim()]. *)
Definition trim (s : string) : string := trimEnd (trimStart s).

(** Every character of [s] is white space. *)
Fixpoint blank (s : string) : bool :=
  match s with
  | EmptyString => true
  | String c s' => is_white_space c && blank s'
  end.

(** [o || d] for a string or absent [o]. *)
Definition or_else (o : option string) (d : string) : string :=
  if Js.truthy o then Js.template o else d.

End JsString.

Inductive Toast : Type :=
| ToastSuccess (text : string)
| ToastError (text : string).

Module Api.

(** What awaiting a call of the HTTP client gives a page: the body of the
    answer, or an error whose [response.data] is the body of the answer,
    if there was one. *)
Inductive Result : Type :=
| Ok (data : Body)
| Failed (response_data : option Body).

(** [data.message] and [data.thumbnail] of a body. *)
Definition data_message (b : Body) : option string :=
  match b with
  | MessageBody m => m
  | ThumbnailBody _ _ => None
  | FailureBody _ m => Some m
  end.

Definition data_thumbnail (b : Body) : option Thumbnail :=
  match b with
  | ThumbnailBody _ t => Some t
  | _ => None
  end.

(** [error?.response?.data?.message]. *)
Definition error_message (d : option Body) : option string :=
  match d with
  | Some b => data_message b
  | None => None
  end.

(** Modelled from the spec: the client's [configs/api] is not among the
    sources.  A server answer reaches the page as the HTTP client of the
    pages hands it over: an answer with a 2xx status resolves with its
    body, any other answer is thrown with the body as [response.data]. *)
Definition deliver (r : Response) : Result :=
  if Nat.leb 200 (status r) && Nat.ltb (status r) 300 then Ok (json r)
  else Failed (Some (json r)).

End Api.

(** ** The preview panel *)

Module PreviewPanel.

Inductive View : Type :=
| LoadingView
| ImageView (src alt : string)
| EmptyView.



(** [thumbnail?.image_url]. *)
Definition image_of (thumbnail : option Thumbnail) : option string :=
  match thumbnail with
  | Some t => image_url t
  | None => None
  end.

(** [thumbnail.title || "Thumbnail preview"]. *)
Definition alt_of (thumbnail : option Thumbnail) : string :=
  JsString.or_else (match thumbnail with Some t => title t | None => None end)
    "Thumbnail preview".

(** The three conditional blocks of the frame, in the order of the
    markup. *)
Definition views (thumbnail : option Thumbnail) (isLoading : bool) : list View :=
  (if isLoading then [LoadingView] else [])
  ++ (if negb isLoading && Js.truthy (image_of thumbnail)
      then [ImageView (Js.template (image_of thumbnail)) (alt_of thumbnail)]
      else [])
  ++ (if negb isLoading && negb (Js.truthy (image_of thumbnail))
      then [EmptyView] else []).

End PreviewPanel.

(** ** The gallery page *)

Module Gallery.

Definition aspectRatioClassMap : gmap string string :=
  list_to_map
    [ ("16:9", "aspect-video"); ("1:1", "aspect-square"); ("9:16", "aspect-[9/16]") ].

(** [v || d] inside a class list, for the value of a property read. *)
Definition value_or (v : Js.Value) (d : string) : string :=
  match v with
  | Js.Undefined => d
  | Js.Str s => if Js.truthy_string s then s else d
  | _ => Js.ToString v
  end.

Inductive Picture : Type :=
| Img (src : string) (alt : option string)
| Placeholder (text : string).

Record Card : Type := {
  card_key : ObjectId;
  aspectClass : string;
  picture : Picture;
  overlay : bool
}.

(** One element of [thumbnails.map(...)]. *)
Definition card (thumb : Thumbnail) : Card :=
  {| card_key := _id thumb;
     aspectClass :=
       value_or (Js.Get aspectRatioClassMap (aspect_ratio thumb)) "aspect-video";
     picture :=
       if Js.truthy (image_url thumb)
       then Img (Js.template (image_url thumb)) (title thumb)
       else Placeholder (if isGenerating thumb then "Processing AI..." else "No image");
     overlay := isGenerating thumb |}.

Inductive Region : Type :=
| LoadingRegion
| EmptyRegion
| Grid (cards : list Card).

(** The three conditional regions of the page. *)
Definition render (loading : bool) (thumbnails : list Thumbnail) : list Region :=
  (if loading then [LoadingRegion] else [])
  ++ (if negb loading && Nat.eqb (length thumbnails) 0 then [EmptyRegion] else [])
  ++ (if negb loading && Nat.ltb 0 (length thumbnails)
      then [Grid (card <$> thumbnails)] else []).

(** [handleDelete(id)]: the answer of [window.confirm], the result of the
    delete call, and the list of thumbnails before and after. *)
Definition handleDelete (confirmAction : bool) (result : Api.Result)
  (thumbnails : list Thumbnail) (id : ObjectId) : list Thumbnail * option Toast :=
  if confirmAction then
    match result with
    | Api.Ok data =>
        (List.filter (fun t => negb (Nat.eqb (_id t) id)) thumbnails,
         Some (ToastSuccess
                 (JsString.or_else (Api.data_message data) "Deleted successfully")))
    | Api.Failed d =>
        (thumbnails,
         Some (ToastError (JsString.or_else (Api.error_message d) "Failed to delete")))
    end
  else (thumbnails, None).

End Gallery.

(** ** The generate page *)

Module GeneratePage.

(** The form and the data of the page.  [colorSchemes[0].id], of the
    assets that are not among the sources, is the parameter
    [default_color] below. *)
Record State : Type := {
  st_title : string;
  st_additionalDetails : string;
  st_aspectRatio : string;
  st_colorSchemeId : string;
  st_style : string;
  st_thumbnail : option Thumbnail;
  st_loading : bool
}.

(** The values of the [useState] calls. *)
Definition initial (default_color : string) : State :=
  {| st_title := "";
     st_additionalDetails := "";
     st_aspectRatio := "16:9";
     st_colorSchemeId := default_color;
     st_style := "Bold and Graphic";
     st_thumbnail := None;
     st_loading := false |}.

Definition set_loading (b : bool) (st : State) : State :=
  {| st_title := st_title st;
     st_additionalDetails := st_additionalDetails st;
     st_aspectRatio := st_aspectRatio st;
     st_colorSchemeId := st_colorSchemeId st;
     st_style := st_style st;
     st_thumbnail := st_thumbnail st;
     st_loading := b |}.

(** [thumb?.field]. *)
Definition field (f : Thumbnail -> option string) (thumb : option Thumbnail)
  : option string :=
  match thumb with
  | Some t => f t
  | None => None
  end.

(** [fetchThumbnail] once the call has returned. *)
Definition fetchThumbnail (default_color : string) (result : Api.Result)
  (st : State) : State * option Toast :=
  match result with
  | Api.Ok data =>
      let thumb := Api.data_thumbnail data in
      ({| st_title := JsString.or_else (field title thumb) "";
          st_additionalDetails := JsString.or_else (field user_prompt thumb) "";
          st_aspectRatio := JsString.or_else (field aspect_ratio thumb) "16:9";
          st_colorSchemeId := JsString.or_else (field color_scheme thumb) default_color;
          st_style := JsString.or_else (field style thumb) "Bold and Graphic";
          st_thumbnail := thumb;
          st_loading := negb (Js.truthy (field image_url thumb)) |}, None)
  | Api.Failed d =>
      (set_loading false st,
       Some (ToastError
               (JsString.or_else (Api.error_message d) "Failed to fetch thumbnail")))
  end.

(** The body of the generate call. *)
Record Payload : Type := {
  p_title : string;
  p_prompt : string;
  p_style : string;
  p_aspect_ratio : string;
  p_color_scheme : string;
  p_text_overlay : bool
}.

(** [handleGenerate] up to the call: a toast and no call, or the page set
    to loading and the body that is posted. *)
Definition handleGenerate (isLoggedIn : bool) (st : State)
  : State * (Toast + Payload) :=
  if negb isLoggedIn then (st, inl (ToastError "Please login to generate thumbnails"))
  else if negb (Js.truthy_string (JsString.trim (st_title st)))
  then (st, inl (ToastError "Title is required"))
  else (set_loading true st,
        inr {| p_title := st_title st;
               p_prompt := st_additionalDetails st;
               p_style := st_style st;
               p_aspect_ratio := st_aspectRatio st;
               p_color_scheme := st_colorSchemeId st;
               p_text_overlay := true |}).

(** [handleGenerate] after the call: the state, the toast, and the record
    whose page is navigated to. *)
Definition handleGenerate_done (result : Api.Result) (st : State)
  : State * option Toast * option ObjectId :=
  match result with
  | Api.Ok data =>
      match Api.data_thumbnail data with
      | Some t =>
          (st,
           Some (ToastSuccess
                   (JsString.or_else (Api.data_message data) "Generation started!")),
           Some (_id t))
      | None => (st, None, None)
      end
  | Api.Failed d =>
      (set_loading false st,
       Some (ToastError
               (JsString.or_else (Api.error_message d) "Something went wrong")),
       None)
  end.

(** The request the server sees for a posted body: every field of the
    body is present. *)
Definition request_of (session_userId : option string) (p : Payload)
  : GenerateRequest :=
  {| g_session_userId := session_userId;
     body_title := Some (p_title p);
     body_prompt := Some (p_prompt p);
     body_style := Some (p_style p);
     body_aspect_ratio := Some (p_aspect_ratio p);
     body_color_scheme := Some (p_color_scheme p);
     body_text_overlay := Some (p_text_overlay p) |}.

(** The polling effect: whether it fetches at once, and whether it arms
    the two-second interval. *)
Definition effect_fetches (id : option string) (isLoggedIn : bool) : bool :=
  isLoggedIn && Js.truthy id.

Definition effect_polls (id : option string) (loading isLoggedIn : bool) : bool :=
  Js.truthy id && loading && isLoggedIn.

(** The state after the answers of a series of fetches, oldest first. *)
Definition poll (default_color : string) (results : list Api.Result) (st : State)
  : State :=
  fold_left (fun st r => fst (fetchThumbnail default_color r st)) results st.

End GeneratePage.

(** ** [server.ts]: the session cookie *)

Module Server.

Inductive SameSite : Type := SameSiteNone | SameSiteLax.

Record CookieOptions : Type := {
  maxAge : N;
  secure : bool;
  sameSite : SameSite;
  path : string
}.

(** [process.env.NODE_ENV === "production"]. *)
Definition is_production (node_env : option string) : bool :=
  match node_env with
  | Some e => String.eqb e "production"
  | None => false
  end.

Definition cookie (node_env : option string) : CookieOptions :=
  {| maxAge := (1000 * 60 * 60 * 24 * 7)%N;
     secure := is_production node_env;
     sameSite := if is_production node_env then SameSiteNone else SameSiteLax;
     path := "/" |}.

End Server.

(** ** More vocabulary *)


(** A record is in progress without an image reference, or finished with
    one. *)
Definition consistent (d : Thumbnail) : Prop :=
  (isGenerating d = true /\ image_url d = None)
  \/ (isGenerating d = false /\ is_Some (image_url d)).

(** The records of [uid], in the order of the store. *)
Definition owned (uid : string) (l : list Thumbnail) : list Thumbnail :=
  List.filter (fun d => String.eqb (userId d) uid) l.

(** The first candidate's parts hold no inline image. *)
Definition first_candidate_without_image (r : GenerateContentResponse) : Prop :=
  exists c cs ps,
    candidates r = Some (c :: cs)
    /\ content c = Some {| parts := Some ps |}
    /\ payloads ps = [].

(** ** More samples *)

Module Scenario.

(** A response whose only image is in its second candidate. *)
Definition image_in_second_candidate : GenerateContentResponse :=
  {| candidates :=
       Some [ {| content := Some {| parts := Some [Sample.text_part] |} |};
              {| content := Some {| parts := Some [Sample.image_part "AAAA"] |} |} ] |}.

Definition second_candidate_world : World :=
  Sample.world (Resolved (Some image_in_second_candidate)) Sample.uploaded.

Definition anonymous : GenerateRequest :=
  {| g_session_userId := None;
     body_title := Some "10 sleep tips";
     body_prompt := None;
     body_style := Some "Minimalist";
     body_aspect_ratio := None;
     body_color_scheme := None;
     body_text_overlay := None |}.

Definition anonymous_delete : DeleteRequest :=
  {| d_session_userId := Some ""; params_id := 0 |}.

(** The form as it is first shown, with a title typed in. *)
Definition typed_form : GeneratePage.State :=
  {| GeneratePage.st_title := "10 sleep tips";
     GeneratePage.st_additionalDetails := "";
     GeneratePage.st_aspectRatio := "16:9";
     GeneratePage.st_colorSchemeId := "vibrant";
     GeneratePage.st_style := "Bold and Graphic";
     GeneratePage.st_thumbnail := None;
     GeneratePage.st_loading := false |}.

(** The body posted for it. *)
Definition typed_payload : GeneratePage.Payload :=
  {| GeneratePage.p_title := "10 sleep tips";
     GeneratePage.p_prompt := "";
     GeneratePage.p_style := "Bold and Graphic";
     GeneratePage.p_aspect_ratio := "16:9";
     GeneratePage.p_color_scheme := "vibrant";
     GeneratePage.p_text_overlay := true |}.

(** A form whose title is two spaces. *)
Definition blank_form : GeneratePage.State :=
  {| GeneratePage.st_title := "  ";
     GeneratePage.st_additionalDetails := "";
     GeneratePage.st_aspectRatio := "16:9";
     GeneratePage.st_colorSchemeId := "vibrant";
     GeneratePage.st_style := "Minimalist";
     GeneratePage.st_thumbnail := None;
     GeneratePage.st_loading := false |}.

End Scenario.

(** * Theorems *)

Import Controller.

(** ** The handler follows one of the rules *)

Lemma generateThumbnail_run w req s :
  GenerateRun w req s (generateThumbnail w req s).
Proof.
  unfold generateThumbnail, try_catch.
  destruct (g_session_userId req) as [uid|] eqn:Hs; [|by apply run_unauthorized; rewrite Hs].
  destruct (Js.truthy_string uid) eqn:Ht; [|by apply run_unauthorized; rewrite Hs].
  assert (Ha : authenticated (g_session_userId req) uid) by (by rewrite Hs).
  unfold generate_body, bind, Thumbnail_create.
  destruct (create_result w (create_input uid req)) as [[]|e|] eqn:Hc;
    [|by eapply run_create_rejected|by eapply run_create_pending].
  unfold ai_models_generateContent, await.
  destruct (generateContent_result w (generate_params req)) as [response|e|] eqn:Hg;
    [|by eapply run_provider_rejected|by eapply run_provider_pending].
  destruct (response_parts response) as [ps|] eqn:Hp;
    [|by eapply run_invalid_response].
  destruct (scan_parts ps) as [buf|] eqn:Hb; [|by eapply run_no_image].
  unfold throw, cloudinary_upload_stream, await.
  destruct (upload_result w upload_options buf) as [r|e|] eqn:Hu;
    [|by eapply run_upload_rejected|by eapply run_upload_pending].
  unfold Thumbnail_save. cbn [_id assign new_document emit docs trace next_id].
  destruct (save_result w _) as [[]|e|] eqn:Hv;
    [|by eapply run_save_rejected; eauto|by eapply run_save_pending].
  destruct (findById (next_id s) (docs s ++ _)) as [before|] eqn:Hf.
  - by eapply run_success.
  - eapply run_save_rejected; eauto.
Qed.

(** ** What each run adds to the trace *)

Lemma authenticated_inj o uid uid' :
  authenticated o uid -> authenticated o uid' -> uid = uid'.
Proof. intros [H1 _] [H2 _]. congruence. Qed.

Lemma authenticated_truthy o uid : authenticated o uid -> Js.truthy o = true.
Proof. intros [-> H]. exact H. Qed.

Lemma new_events_same s : new_events s s = [].
Proof. unfold new_events. apply drop_all. Qed.

Lemma new_events_after_generate req s uid :
  new_events s (after_generate req s uid)
  = [Created (created_doc req s uid); GenerateContentCalled (generate_params req)].
Proof.
  unfold new_events, after_generate, after_create, emit; cbn [trace].
  by rewrite <- app_assoc, drop_app_length.
Qed.

Lemma new_events_after_upload req s uid buf :
  new_events s (after_upload req s uid buf)
  = [Created (created_doc req s uid); GenerateContentCalled (generate_params req);
     UploadCalled upload_options buf].
Proof.
  unfold new_events, after_upload, after_generate, after_create, emit; cbn [trace].
  by rewrite <- !app_assoc, drop_app_length.
Qed.

Lemma new_events_after_save req s uid buf before after :
  new_events s (after_save req s uid buf before after)
  = [Created (created_doc req s uid); GenerateContentCalled (generate_params req);
     UploadCalled upload_options buf; Saved before after].
Proof.
  unfold new_events, after_save, after_upload, after_generate, after_create, emit;
    cbn [trace].
  by rewrite <- !app_assoc, drop_app_length.
Qed.

Ltac new_events_simpl :=
  rewrite ?new_events_same, ?new_events_after_generate,
    ?new_events_after_upload, ?new_events_after_save in *.

(** Case analysis on the run of [generateThumbnail w req s], naming the
    final state and the outcome. *)
Ltac generate_cases w req s s' out :=
  let Hrun := fresh "Hrun" in
  pose proof (generateThumbnail_run w req s) as Hrun;
  destruct (generateThumbnail w req s) as [s' out];
  inversion Hrun; subst; clear Hrun;
  cbn [fst snd] in *; new_events_simpl.

(** Membership in a list that is written out. *)
Ltac mem_inv :=
  repeat match goal with
  | H : _ ∈ [] |- _ => by apply elem_of_nil in H
  | H : _ ∈ _ :: _ |- _ => apply elem_of_cons in H as [H|H]; simplify_eq
  end.

(** Two outcomes recorded for the same call are the same outcome. *)
Ltac same_outcome :=
  repeat match goal with
  | H1 : ?x = _, H2 : ?x = _ |- _ => rewrite H1 in H2; simplify_eq
  end.

(** With two sessions in scope, the authenticated user is the same. *)
Ltac same_user :=
  repeat match goal with
  | H1 : authenticated ?o ?u, H2 : authenticated ?o ?v |- _ =>
      first [ is_var v; pose proof (authenticated_inj _ _ _ H1 H2); subst v
            | is_var u; pose proof (authenticated_inj _ _ _ H2 H1); subst u ];
      try clear H2
  | H1 : authenticated ?o _, H2 : Js.truthy ?o = false |- _ =>
      apply authenticated_truthy in H1; congruence
  end.

(** ** The record exists before the provider is called (C1) *)

(** C1.  In a run of the generate handler for an authenticated session,
    every invocation of the provider comes after the creation of the
    record, which is created with the in-progress flag set and without an
    image reference; when the store accepts the creation the provider is
    invoked right after it; and when the provider never returns, the
    handler stays pending while the record is in the store, still in
    progress and without an image reference. *)
Theorem record_created_before_provider w req s uid :
  authenticated (g_session_userId req) uid ->
  let s' := fst (generateThumbnail w req s) in
  let out := snd (generateThumbnail w req s) in
  let new := new_events s s' in
  (forall k p, new !! k = Some (GenerateContentCalled p) ->
     exists j doc, j < k /\ new !! j = Some (Created doc)
       /\ userId doc = uid /\ isGenerating doc = true /\ image_url doc = None)
  /\ (create_result w (create_input uid req) = Resolved tt ->
      exists doc p rest, new = Created doc :: GenerateContentCalled p :: rest)
  /\ (forall p, GenerateContentCalled p ∈ new ->
        generateContent_result w p = Pending ->
        out = Pending
        /\ exists doc, doc ∈ docs s' /\ Created doc ∈ new
             /\ isGenerating doc = true /\ image_url doc = None).
Proof.
  intros Ha. generate_cases w req s s' out; same_user;
    (split; [|split]).
  all: try (intros [|[|[|[|k]]]] p Hk; simplify_eq/=;
            exists 0, (created_doc req s uid); repeat split; lia).
  all: try (intros Hc; congruence).
  all: try (intros _; by eauto).
  all: intros p Hp Hg; mem_inv; try congruence.
  split; [done|]. exists (created_doc req s uid).
  unfold after_generate, after_create, emit; cbn [docs].
  repeat split; [apply elem_of_app; right|]; apply list_elem_of_here.
Qed.

Lemma record_created_before_provider_witness :
  authenticated (g_session_userId Sample.request) "u1"
  /\ snd (generateThumbnail Sample.provider_hangs Sample.request Sample.empty) = Pending
  /\ exists doc,
       doc ∈ docs (fst (generateThumbnail Sample.provider_hangs Sample.request Sample.empty))
       /\ Created doc ∈ new_events Sample.empty
            (fst (generateThumbnail Sample.provider_hangs Sample.request Sample.empty))
       /\ isGenerating doc = true /\ image_url doc = None.
Proof.
  assert (Ha : authenticated (g_session_userId Sample.request) "u1")
    by (split; reflexivity).
  split; [exact Ha|].
  apply (record_created_before_provider Sample.provider_hangs Sample.request
           Sample.empty "u1" Ha) with (p := generate_params Sample.request).
  - apply list_elem_of_further, list_elem_of_here.
  - reflexivity.
Defined.

(** ** The document store *)

Lemma remove_first_Some p l d l' :
  remove_first p l = (Some d, l') ->
  exists l1 l2, l = l1 ++ d :: l2 /\ l' = l1 ++ l2 /\ p d = true
    /\ Forall (fun x => p x = false) l1.
Proof.
  revert l'. induction l as [|x l IH]; intros l' H; simpl in H; [discriminate|].
  destruct (p x) eqn:Hp.
  - injection H as <- <-. exists [], l. by repeat split.
  - destruct (remove_first p l) as [r l''] eqn:Hr. injection H as -> <-.
    destruct (IH _ eq_refl) as (l1 & l2 & -> & -> & Hd & Hall).
    exists (x :: l1), l2. repeat split; auto.
Qed.

Lemma remove_first_None p l l' :
  remove_first p l = (None, l') -> l' = l /\ Forall (fun x => p x = false) l.
Proof.
  revert l'. induction l as [|x l IH]; intros l' H; simpl in H.
  - by injection H as <-.
  - destruct (p x) eqn:Hp; [discriminate|].
    destruct (remove_first p l) as [r l''] eqn:Hr. injection H as -> <-.
    destruct (IH _ eq_refl) as [-> Hall]. by split; [|constructor].
Qed.

Lemma matches_true id uid d :
  matches id uid d = true -> _id d = id /\ userId d = uid.
Proof.
  unfold matches. intros [H1 H2]%andb_true_iff.
  split; [by apply Nat.eqb_eq|by apply String.eqb_eq].
Qed.

(** The state and outcome of [deleteThumbnail] for an authenticated
    caller, by the outcome of the store's call. *)
Lemma deleteThumbnail_run w req s uid :
  authenticated (d_session_userId req) uid ->
  match findOneAndDelete_result w (params_id req) uid with
  | Resolved _ =>
      match remove_first (matches (params_id req) uid) (docs s) with
      | (Some d, l') =>
          deleteThumbnail w req s
          = ({| docs := l'; next_id := next_id s; trace := trace s ++ [Deleted d] |},
             Resolved deleted)
      | (None, _) => deleteThumbnail w req s = (s, Resolved deleted)
      end
  | Rejected e => deleteThumbnail w req s = (s, Resolved (delete_failed e))
  | Pending => deleteThumbnail w req s = (s, Pending)
  end.
Proof.
  intros [Hs Ht]. unfold deleteThumbnail, try_catch, bind, Thumbnail_findOneAndDelete.
  rewrite Hs, Ht.
  destruct (findOneAndDelete_result w (params_id req) uid); try reflexivity.
  by destruct (remove_first _ _) as [[d|] l'].
Qed.

(** ** Deletion is scoped to the owner (C3) *)

(** C3.  For an authenticated caller, the delete handler leaves the store
    as it is or removes exactly one record, whose owner is the caller and
    whose identifier is the requested one; a record of another owner stays
    in the store, and the response carries a message and no record. *)
Theorem delete_only_own_record w req s uid :
  authenticated (d_session_userId req) uid ->
  let s' := fst (deleteThumbnail w req s) in
  let out := snd (deleteThumbnail w req s) in
  (docs s' = docs s
   \/ exists l1 d l2, docs s = l1 ++ d :: l2 /\ docs s' = l1 ++ l2
        /\ userId d = uid /\ _id d = params_id req)
  /\ (forall d, d ∈ docs s -> userId d <> uid -> d ∈ docs s')
  /\ (forall d, Deleted d ∈ new_events s s' -> userId d = uid /\ _id d = params_id req)
  /\ (forall r, out = Resolved r -> exists m, json r = MessageBody m).
Proof.
  intros Ha. pose proof (deleteThumbnail_run w req s uid Ha) as Hrun.
  destruct (findOneAndDelete_result w (params_id req) uid) as [[]|e|].
  1: destruct (remove_first _ _) as [[d|] l'] eqn:Hr.
  all: rewrite Hrun; cbn [fst snd docs]; unfold new_events; cbn [trace];
    rewrite ?drop_app_length, ?drop_all.
  2-4: split; [by left|split; [done|split; [intros x Hx; mem_inv|intros r [= <-]; by eexists]]].
  apply remove_first_Some in Hr as (l1 & l2 & Hl & -> & [Hid Hu]%matches_true & _).
  rewrite Hl. split; [|split; [|split]].
  - right. by exists l1, d, l2.
  - intros d' Hd' Hne. rewrite elem_of_app, elem_of_cons in Hd'.
    rewrite elem_of_app. destruct Hd' as [?|[->|?]]; auto. congruence.
  - intros x Hx. by mem_inv.
  - intros r [= <-]. by eexists.
Qed.

Lemma delete_only_own_record_witness :
  authenticated (d_session_userId (Sample.delete_request "u1" 1)) "u1"
  /\ Sample.doc_of 1 "u2"
       ∈ docs (fst (deleteThumbnail Sample.one_image (Sample.delete_request "u1" 1)
                      Sample.two_owners)).
Proof.
  assert (Ha : authenticated (d_session_userId (Sample.delete_request "u1" 1)) "u1")
    by (split; reflexivity).
  split; [exact Ha|].
  apply (delete_only_own_record Sample.one_image (Sample.delete_request "u1" 1)
           Sample.two_owners "u1" Ha).
  - apply list_elem_of_further, list_elem_of_here.
  - discriminate.
Defined.

(** ** The answer of the delete handler (C6) *)

(** C6 as stated fails: when the store rejects the call (an identifier it
    cannot cast, a lost connection), an authenticated delete request is
    answered with status 500 and the store's message. *)
Lemma delete_store_error_gives_500 :
  authenticated (d_session_userId (Sample.delete_request "u1" 7)) "u1"
  /\ snd (deleteThumbnail (Sample.store_fails Sample.cast_error)
            (Sample.delete_request "u1" 7) Sample.two_owners)
     = Resolved {| status := 500;
                   json := MessageBody (Some "Cast to ObjectId failed") |}.
Proof. split; [split|]; reflexivity. Qed.

(** C6, amended.  For an authenticated delete request whose store call
    completes, the handler answers with status 200 and the generic
    success message, whether or not a record matched (so also for an
    identifier that was never there or was deleted before); when the store
    rejects the call the answer is status 500 with the error's message;
    no answer has status 404. *)
Theorem delete_answers_success_without_match w req s uid :
  authenticated (d_session_userId req) uid ->
  let out := snd (deleteThumbnail w req s) in
  (findOneAndDelete_result w (params_id req) uid = Resolved tt ->
   out = Resolved {| status := 200;
                     json := MessageBody (Some "Thumbnail deleted successfully") |})
  /\ (forall e, findOneAndDelete_result w (params_id req) uid = Rejected e ->
        out = Resolved {| status := 500; json := MessageBody (message e) |})
  /\ (forall r, out = Resolved r -> status r <> 404).
Proof.
  intros Ha. pose proof (deleteThumbnail_run w req s uid Ha) as Hrun.
  destruct (findOneAndDelete_result w (params_id req) uid) as [[]|e|].
  1: destruct (remove_first _ _) as [[d|] l'] eqn:Hr.
  all: rewrite Hrun; cbn [fst snd]; split; [|split]; try done.
  all: try (intros r [= <-]; cbn; lia).
  by intros e' [= ->].
Qed.

Lemma delete_answers_success_without_match_witness :
  authenticated (d_session_userId (Sample.delete_request "u1" 7)) "u1"
  /\ snd (deleteThumbnail Sample.one_image (Sample.delete_request "u1" 7)
            Sample.two_owners)
     = Resolved {| status := 200;
                   json := MessageBody (Some "Thumbnail deleted successfully") |}
  /\ snd (deleteThumbnail Sample.one_image (Sample.delete_request "u1" 0)
            (fst (deleteThumbnail Sample.one_image (Sample.delete_request "u1" 0)
                    Sample.two_owners)))
     = Resolved {| status := 200;
                   json := MessageBody (Some "Thumbnail deleted successfully") |}.
Proof.
  assert (Ha : forall id, authenticated
                 (d_session_userId (Sample.delete_request "u1" id)) "u1")
    by (split; reflexivity).
  split; [apply Ha|split].
  - apply (delete_answers_success_without_match Sample.one_image
             (Sample.delete_request "u1" 7) Sample.two_owners "u1" (Ha 7)).
    reflexivity.
  - apply (delete_answers_success_without_match Sample.one_image
             (Sample.delete_request "u1" 0) _ "u1" (Ha 0)).
    reflexivity.
Defined.

(** ** The scan of the response parts *)

Lemma scan_parts_snoc ps part :
  scan_parts (ps ++ [part]) = scan_part (scan_parts ps) part.
Proof. unfold scan_parts. by rewrite fold_left_app. Qed.

(** The loop keeps the buffer of the last payload it meets. *)
Lemma scan_parts_last ps :
  scan_parts ps = Buffer.from_base64 <$> last (payloads ps).
Proof.
  induction ps as [|part ps IH] using rev_ind; [reflexivity|].
  rewrite scan_parts_snoc, IH. unfold payloads, scan_part.
  rewrite omap_app. cbn [omap list_omap].
  destruct (inline_payload part) as [d|].
  - by rewrite last_snoc.
  - by rewrite app_nil_r.
Qed.

Lemma scan_parts_None ps : scan_parts ps = None <-> payloads ps = [].
Proof.
  rewrite scan_parts_last, <- last_None. by destruct (last (payloads ps)).
Qed.

(** ** Which payload is uploaded (C4) *)

(** C4 as stated fails: of two inline payloads the handler uploads the
    bytes of the second one; the bytes of the first one are not what the
    media host receives. *)
Lemma first_payload_not_uploaded :
  generateContent_result Sample.two_images (generate_params Sample.request)
  = Resolved (Sample.response_with Sample.three_parts)
  /\ response_parts (Sample.response_with Sample.three_parts)
     = Some Sample.three_parts
  /\ head (payloads Sample.three_parts) = Some "AAAA"
  /\ Buffer.from_base64 "AAAA" = [0; 0; 0]%N
  /\ uploads (new_events Sample.empty
                (fst (generateThumbnail Sample.two_images Sample.request Sample.empty)))
     = [[255%N]].
Proof. repeat split. Qed.

(** C4, amended.  For every response the provider returned to the handler
    whose first candidate has a parts list: when the list holds inline
    image payloads, the handler uploads once, the bytes of the last of
    them; when it holds none, nothing is uploaded and the handler answers
    with the error that no image was returned. *)
Theorem uploads_last_inline_payload w req s :
  let s' := fst (generateThumbnail w req s) in
  let out := snd (generateThumbnail w req s) in
  let new := new_events s s' in
  forall p response ps,
    GenerateContentCalled p ∈ new ->
    generateContent_result w p = Resolved response ->
    response_parts response = Some ps ->
    (forall d, last (payloads ps) = Some d -> uploads new = [Buffer.from_base64 d])
    /\ (payloads ps = [] ->
        uploads new = []
        /\ out = Resolved {| status := 500;
                             json := FailureBody false "No image returned from AI" |}).
Proof.
  generate_cases w req s s' out; intros p response' ps' Hp Hg Hps; mem_inv;
    try congruence.
  all: assert (response' = response) as -> by congruence.
  all: assert (ps' = ps) as -> by congruence.
  all: split; [intros d Hd|intros Hnil].
  all: try (apply scan_parts_None in Hnil; congruence).
  all: try (rewrite scan_parts_last, Hd in *; by simplify_eq/=).
  done.
Qed.

Lemma uploads_last_inline_payload_witness :
  uploads (new_events Sample.empty
             (fst (generateThumbnail Sample.two_images Sample.request Sample.empty)))
  = [Buffer.from_base64 "/w=="]
  /\ uploads (new_events Sample.empty
                (fst (generateThumbnail Sample.no_image Sample.request Sample.empty)))
     = [].
Proof.
  split.
  - apply (uploads_last_inline_payload Sample.two_images Sample.request Sample.empty
             (generate_params Sample.request)
             (Sample.response_with Sample.three_parts) Sample.three_parts).
    + apply list_elem_of_further, list_elem_of_here.
    + reflexivity.
    + reflexivity.
    + reflexivity.
  - apply (uploads_last_inline_payload Sample.no_image Sample.request Sample.empty
             (generate_params Sample.request)
             (Sample.response_with [Sample.text_part]) [Sample.text_part]).
    + apply list_elem_of_further, list_elem_of_here.
    + reflexivity.
    + reflexivity.
    + reflexivity.
Defined.

(** ** Failures after the creation (C5) *)

Lemma message_or_spec e fallback :
  (forall m, message e = Some m -> m <> "" -> message_or e fallback = m)
  /\ (message e = None \/ message e = Some "" -> message_or e fallback = fallback).
Proof.
  unfold message_or. destruct (message e) as [[|c m]|]; split.
  - by intros m [= <-].
  - done.
  - by intros m' [= <-].
  - by intros [|].
  - done.
  - done.
Qed.

Lemma generate_failed_fails_with s s' doc e :
  docs s' = docs s ++ [doc] -> isGenerating doc = true -> image_url doc = None ->
  fails_with s s' (Resolved (generate_failed e)) doc e.
Proof.
  intros Hd Hg Hi. split; [|done].
  exists (message_or e "Failed to generate thumbnail").
  split; [done|]. apply message_or_spec.
Qed.

(** C5 as stated fails: an error whose message is empty is answered with
    the fixed text, not with the error's message. *)
Lemma empty_error_message_replaced :
  generateContent_result (Sample.provider_fails Sample.silent_error)
    (generate_params Sample.request)
  = Rejected Sample.silent_error
  /\ message Sample.silent_error = Some ""
  /\ snd (generateThumbnail (Sample.provider_fails Sample.silent_error)
            Sample.request Sample.empty)
     = Resolved {| status := 500;
                   json := FailureBody false "Failed to generate thumbnail" |}.
Proof. repeat split. Qed.

(** C5, amended.  When the provider call, the extraction of the image or
    the upload fails after the record was created, the handler answers
    with status 500 and the error's message, or the fixed text
    "Failed to generate thumbnail" when the error has no message or an
    empty one; the store then holds the created record unchanged, in
    progress and without an image reference. *)
Theorem failure_leaves_record_in_progress w req s :
  let s' := fst (generateThumbnail w req s) in
  let out := snd (generateThumbnail w req s) in
  let new := new_events s s' in
  forall doc, Created doc ∈ new ->
    (forall p e, GenerateContentCalled p ∈ new ->
       generateContent_result w p = Rejected e ->
       fails_with s s' out doc e)
    /\ (forall p response, GenerateContentCalled p ∈ new ->
          generateContent_result w p = Resolved response ->
          response_parts response = None ->
          fails_with s s' out doc (Error (Some "Invalid AI response")))
    /\ (forall p response ps, GenerateContentCalled p ∈ new ->
          generateContent_result w p = Resolved response ->
          response_parts response = Some ps ->
          payloads ps = [] ->
          fails_with s s' out doc (Error (Some "No image returned from AI")))
    /\ (forall opts buf e, UploadCalled opts buf ∈ new ->
          upload_result w opts buf = Rejected e ->
          fails_with s s' out doc e).
Proof.
  generate_cases w req s s' out; intros doc Hdoc; mem_inv.
  all: split; [|split; [|split]].
  all: try (intros p e' Hp Hg; mem_inv; same_outcome;
            by apply generate_failed_fails_with).
  all: try (intros p r' Hp Hg Hr; mem_inv; same_outcome;
            by apply generate_failed_fails_with).
  all: try (intros p r' ps' Hp Hg Hr Hnil; mem_inv;
            apply scan_parts_None in Hnil; same_outcome;
            by apply generate_failed_fails_with).
  all: try (intros o b' e' Hu Hr; mem_inv; same_outcome;
            by apply generate_failed_fails_with).
Qed.

Lemma failure_leaves_record_in_progress_witness :
  fails_with Sample.empty
    (fst (generateThumbnail (Sample.provider_fails Sample.quota_error)
            Sample.request Sample.empty))
    (snd (generateThumbnail (Sample.provider_fails Sample.quota_error)
            Sample.request Sample.empty))
    (Sample.doc_of 0 "u1") Sample.quota_error.
Proof.
  apply (failure_leaves_record_in_progress
           (Sample.provider_fails Sample.quota_error)
           Sample.request Sample.empty (Sample.doc_of 0 "u1"))
    with (p := generate_params Sample.request).
  - apply list_elem_of_here.
  - apply list_elem_of_further, list_elem_of_here.
  - reflexivity.
Defined.

(** ** Strings *)

Lemma string_app_cons x (a b : string) : String x a +:+ b = String x (a +:+ b).
Proof. reflexivity. Qed.

Lemma string_app_nil_l (a : string) : "" +:+ a = a.
Proof. reflexivity. Qed.

Lemma string_app_assoc (a b c : string) : (a +:+ b) +:+ c = a +:+ (b +:+ c).
Proof.
  induction a as [|x a IH]; [reflexivity|]. by rewrite !string_app_cons, IH.
Qed.


(** ** The shape of the prompt (C7) *)

(** C7.  The prompt sent to the provider is, in this order, the style
    clause, then the color-scheme clause exactly when a color scheme is
    supplied (present and not empty), then the details clause exactly when
    a user prompt is supplied (present and not empty), then the closing
    clause with the aspect ratio; the style and color clauses take their
    text from the tables, the details clause holds the user prompt, and
    no clause is empty. *)
Theorem prompt_is_concatenation_of_clauses w req s :
  let new := new_events s (fst (generateThumbnail w req s)) in
  (forall p, GenerateContentCalled p ∈ new ->
     contents p
     = [ style_clause (body_style req) (body_title req)
         +:+ (if Js.truthy (body_color_scheme req)
              then color_clause (body_color_scheme req) else "")
         +:+ (if Js.truthy (body_prompt req)
              then details_clause (body_prompt req) else "")
         +:+ closing_clause (aspect_ratio_of req) ])
  /\ (forall k v title, stylePrompts !! k = Some v ->
        style_clause (Some k) title
        = "Create a " +:+ v +:+ " thumbnail for "
          +:+ Js.dquote +:+ Js.template title +:+ Js.dquote +:+ ". ")
  /\ (forall k v, colorSchemeDescriptions !! k = Some v ->
        color_clause (Some k) = "Use a " +:+ v +:+ " color scheme. ")
  /\ (forall u, details_clause (Some u) = "Additional details: " +:+ u +:+ ". ")
  /\ (forall a, closing_clause a
        = "The thumbnail should be " +:+ a
          +:+ ", visually stunning, bold, professional, and optimized for maximum click-through rate.")
  /\ (forall c, color_clause c <> "") /\ (forall u, details_clause u <> "").
Proof.
  assert (Hprompt : prompt_of req
     = style_clause (body_style req) (body_title req)
         +:+ (if Js.truthy (body_color_scheme req)
              then color_clause (body_color_scheme req) else "")
         +:+ (if Js.truthy (body_prompt req)
              then details_clause (body_prompt req) else "")
         +:+ closing_clause (aspect_ratio_of req)).
  { unfold prompt_of, build_prompt.
    destruct (Js.truthy (body_color_scheme req)), (Js.truthy (body_prompt req));
      by rewrite ?string_app_assoc. }
  split; [|split; [|split; [|split; [|split; [|split]]]]].
  - generate_cases w req s s' out; intros p Hp; mem_inv; cbn [contents generate_params];
      by rewrite Hprompt.
  - intros k v title Hk. unfold style_clause, Js.Get. cbn [Js.ToPropertyKey Js.template].
    by rewrite Hk.
  - intros k v Hk. unfold color_clause, Js.Get. cbn [Js.ToPropertyKey Js.template].
    by rewrite Hk.
  - done.
  - done.
  - done.
  - done.
Qed.

Lemma prompt_is_concatenation_of_clauses_witness :
  GenerateContentCalled (generate_params Sample.request)
    ∈ new_events Sample.empty
        (fst (generateThumbnail Sample.one_image Sample.request Sample.empty))
  /\ contents (generate_params Sample.request)
     = [ "Create a minimalist thumbnail, clean layout, simple shapes, limited color palette, plenty of negative space, modern flat design, clear focal point thumbnail for "
         +:+ Js.dquote +:+ "10 sleep tips" +:+ Js.dquote
         +:+ ". Use a soft pastel colors, low saturation, gentle tones, calm and friendly aesthetic color scheme. The thumbnail should be 1:1, visually stunning, bold, professional, and optimized for maximum click-through rate." ].
Proof.
  assert (Hin : GenerateContentCalled (generate_params Sample.request)
            ∈ new_events Sample.empty
                (fst (generateThumbnail Sample.one_image Sample.request Sample.empty)))
    by apply list_elem_of_further, list_elem_of_here.
  split; [exact Hin|].
  exact (proj1 (prompt_is_concatenation_of_clauses Sample.one_image Sample.request
                  Sample.empty) _ Hin).
Defined.

(** ** The default aspect ratio (C10) *)

(** C10.  When the body has no aspect ratio, the record the handler
    creates has the aspect ratio 16:9, the prompt sent to the provider
    ends with the closing clause for 16:9 and the image configuration
    asks for 16:9, the record returned on success has 16:9, and the
    missing value makes no run fail: once the store accepts the creation
    the provider is invoked. *)
Theorem default_aspect_ratio w req s :
  body_aspect_ratio req = None ->
  let s' := fst (generateThumbnail w req s) in
  let out := snd (generateThumbnail w req s) in
  let new := new_events s s' in
  (forall doc, Created doc ∈ new -> aspect_ratio doc = Some "16:9")
  /\ (forall p, GenerateContentCalled p ∈ new ->
        aspectRatio (imageConfig (config p)) = "16:9"
        /\ exists front,
             contents p
             = [ front +:+ "The thumbnail should be 16:9, visually stunning, bold, professional, and optimized for maximum click-through rate." ])
  /\ (forall t, out = Resolved {| status := 200; json := ThumbnailBody true t |} ->
        aspect_ratio t = Some "16:9")
  /\ (forall uid, authenticated (g_session_userId req) uid ->
        create_result w (create_input uid req) = Resolved tt ->
        exists doc p rest, new = Created doc :: GenerateContentCalled p :: rest).
Proof.
  intros Hnone.
  assert (Har : aspect_ratio_of req = "16:9") by (unfold aspect_ratio_of; by rewrite Hnone).
  generate_cases w req s s' out; (split; [|split; [|split]]).
  all: try (intros doc Hdoc; mem_inv;
            cbn [aspect_ratio created_doc new_document create_input in_aspect_ratio];
            by rewrite Har).
  all: try (intros p Hp; mem_inv; cbn [config generate_params contents];
            rewrite Har; split; [reflexivity|];
            unfold prompt_of, build_prompt; rewrite Har; by eexists).
  all: try (intros t [= <-];
            cbn [aspect_ratio finished_doc assign created_doc new_document
                   create_input in_aspect_ratio];
            by rewrite Har).
  all: try (intros t Ht; discriminate Ht).
  all: try (intros uid' Ha Hc; same_user; same_outcome; fail).
  all: intros uid' Ha Hc; by eauto.
Qed.

Lemma default_aspect_ratio_witness :
  body_aspect_ratio Sample.request_without_ratio = None
  /\ aspect_ratio (created_doc Sample.request_without_ratio Sample.empty "u1")
     = Some "16:9".
Proof.
  split; [reflexivity|].
  apply (proj1 (default_aspect_ratio Sample.one_image Sample.request_without_ratio
                  Sample.empty eq_refl)).
  apply list_elem_of_here.
Defined.

(** ** Tags outside the tables (C8) *)

Lemma findById_app_last id l d : _id d = id -> is_Some (findById id (l ++ [d])).
Proof.
  intros Hd. induction l as [|x l IH]; simpl.
  - rewrite Hd, Nat.eqb_refl. by eexists.
  - destruct (Nat.eqb (_id x) id); [by eexists|done].
Qed.

(** In a cooperative world an authenticated generate request is answered
    with status 200, whatever its body holds. *)
Lemma cooperative_success w req s uid :
  authenticated (g_session_userId req) uid -> cooperative w ->
  exists t, snd (generateThumbnail w req s)
            = Resolved {| status := 200; json := ThumbnailBody true t |}
    /\ GenerateContentCalled (generate_params req)
         ∈ new_events s (fst (generateThumbnail w req s)).
Proof.
  intros Ha (Hc & Hg & Hu & Hs).
  destruct (Hg (generate_params req)) as (r0 & ps0 & Hg0 & Hp0 & Hne).
  pose proof (findById_app_last (next_id s) (docs s) (created_doc req s uid) eq_refl)
    as [d Hd].
  generate_cases w req s s' out; same_user; same_outcome;
    repeat match goal with
    | H : create_result w _ = _ |- _ => rewrite Hc in H; simplify_eq
    | H : save_result w _ = _ |- _ => rewrite Hs in H; simplify_eq
    | H : upload_result w ?o ?b = Rejected _ |- _ =>
        destruct (Hu o b) as [? ?]; congruence
    | H : upload_result w ?o ?b = Pending |- _ =>
        destruct (Hu o b) as [? ?]; congruence
    | H : scan_parts _ = None |- _ => by apply scan_parts_None in H
    | H : _ \/ _ |- _ => destruct H as [H|(_ & H & _)]
    | H : findById ?i ?l = None, H' : findById ?i ?l = Some _ |- _ => congruence
    end.
  eexists. split; [reflexivity|]. apply list_elem_of_further, list_elem_of_here.
Qed.

(** C8 as stated fails: [toString] and [constructor] are keys of neither
    table, yet the prompt built from them holds the text of the inherited
    functions and nowhere the text [undefined]. *)
Lemma inherited_name_is_not_undefined :
  body_style Sample.inherited_names = Some "toString"
  /\ stylePrompts !! "toString" = None
  /\ body_color_scheme Sample.inherited_names = Some "constructor"
  /\ colorSchemeDescriptions !! "constructor" = None
  /\ prompt_of Sample.inherited_names
     = "Create a function toString() { [native code] } thumbnail for "
       +:+ Js.dquote +:+ "10 sleep tips" +:+ Js.dquote
       +:+ ". Use a function Object() { [native code] } color scheme. The thumbnail should be 1:1, visually stunning, bold, professional, and optimized for maximum click-through rate."
  /\ Js.includes "undefined" (prompt_of Sample.inherited_names) = false
  /\ GenerateContentCalled (generate_params Sample.inherited_names)
       ∈ new_events Sample.empty
           (fst (generateThumbnail Sample.one_image Sample.inherited_names
                   Sample.empty)).
Proof.
  repeat split. apply list_elem_of_further, list_elem_of_here.
Qed.

(** C8, amended.  A style value that is neither a key of the style table
    nor the name of a property the table object inherits ([constructor],
    [toString], [__proto__] and the like) puts the text [undefined] where
    the style text would be, and likewise a color-scheme value for the
    color table; an inherited name puts the text of the inherited value
    there.  In no case is the request rejected: with every outside call
    succeeding, the prompt is sent and the answer has status 200. *)
Theorem unknown_tag_gives_undefined w req s uid :
  authenticated (g_session_userId req) uid ->
  cooperative w ->
  let style := body_style req in
  let color_scheme := body_color_scheme req in
  let out := snd (generateThumbnail w req s) in
  let new := new_events s (fst (generateThumbnail w req s)) in
  (stylePrompts !! Js.ToPropertyKey style = None ->
   Js.Object_prototype !! Js.ToPropertyKey style = None ->
   style_clause style (body_title req)
   = "Create a undefined thumbnail for "
     +:+ Js.dquote +:+ Js.template (body_title req) +:+ Js.dquote +:+ ". ")
  /\ (colorSchemeDescriptions !! Js.ToPropertyKey color_scheme = None ->
      Js.Object_prototype !! Js.ToPropertyKey color_scheme = None ->
      color_clause color_scheme = "Use a undefined color scheme. ")
  /\ (forall v, stylePrompts !! Js.ToPropertyKey style = None ->
        Js.Object_prototype !! Js.ToPropertyKey style = Some v ->
        style_clause style (body_title req)
        = "Create a " +:+ Js.ToString v +:+ " thumbnail for "
          +:+ Js.dquote +:+ Js.template (body_title req) +:+ Js.dquote +:+ ". ")
  /\ (forall v, colorSchemeDescriptions !! Js.ToPropertyKey color_scheme = None ->
        Js.Object_prototype !! Js.ToPropertyKey color_scheme = Some v ->
        color_clause color_scheme
        = "Use a " +:+ Js.ToString v +:+ " color scheme. ")
  /\ (exists t, out = Resolved {| status := 200; json := ThumbnailBody true t |})
  /\ (exists p, GenerateContentCalled p ∈ new /\ contents p = [prompt_of req]).
Proof.
  intros Ha Hw. cbn zeta.
  destruct (cooperative_success w req s uid Ha Hw) as (t & Hout & Hin).
  split; [|split; [|split; [|split; [|split]]]].
  - intros H1 H2. unfold style_clause, Js.Get. by rewrite H1, H2.
  - intros H1 H2. unfold color_clause, Js.Get. by rewrite H1, H2.
  - intros v H1 H2. unfold style_clause, Js.Get. by rewrite H1, H2.
  - intros v H1 H2. unfold color_clause, Js.Get. by rewrite H1, H2.
  - by exists t.
  - by exists (generate_params req).
Qed.

Lemma unknown_tag_gives_undefined_witness :
  authenticated (g_session_userId Sample.unknown_tags) "u1"
  /\ cooperative Sample.one_image
  /\ style_clause (body_style Sample.unknown_tags) (body_title Sample.unknown_tags)
     = "Create a undefined thumbnail for "
       +:+ Js.dquote +:+ "10 sleep tips" +:+ Js.dquote +:+ ". "
  /\ color_clause (body_color_scheme Sample.unknown_tags)
     = "Use a undefined color scheme. ".
Proof.
  assert (Ha : authenticated (g_session_userId Sample.unknown_tags) "u1")
    by (split; reflexivity).
  assert (Hw : cooperative Sample.one_image).
  { split; [done|split; [|split; [|done]]].
    - intros p. eexists _, _. split; [reflexivity|split; [reflexivity|discriminate]].
    - intros o b. by eexists. }
  split; [exact Ha|split; [exact Hw|]].
  pose proof (unknown_tag_gives_undefined Sample.one_image Sample.unknown_tags
                Sample.empty "u1" Ha Hw) as (Hstyle & Hcolor & _).
  split; [apply Hstyle|apply Hcolor]; reflexivity.
Defined.

(** ** Prefixes, occurrences and [replace] *)

Lemma prefix_nil s : String.prefix "" s = true.
Proof. by destruct s. Qed.

Lemma prefix_empty_inv p : String.prefix p "" = true -> p = "".
Proof. by destruct p. Qed.

Lemma includes_nil pat : Js.includes pat "" = String.prefix pat "".
Proof. by destruct pat. Qed.

Lemma prefix_cons a p b s :
  String.prefix (String a p) (String b s)
  = if Ascii.ascii_dec a b then String.prefix p s else false.
Proof. reflexivity. Qed.

Lemma prefix_app p x : String.prefix p (p +:+ x) = true.
Proof.
  induction p as [|a p IH]; [apply prefix_nil|].
  rewrite string_app_cons, prefix_cons. by destruct (Ascii.ascii_dec a a).
Qed.

Lemma prefix_split p s :
  String.prefix p s = true -> s = p +:+ Js.drop (String.length p) s.
Proof.
  revert s. induction p as [|a p IH]; intros s H; [reflexivity|].
  destruct s as [|b s]; [discriminate|].
  rewrite prefix_cons in H. destruct (Ascii.ascii_dec a b) as [->|]; [|discriminate].
  rewrite string_app_cons. cbn [String.length Js.drop]. f_equal. by apply IH.
Qed.

Lemma prefix_trans p q s :
  String.prefix p q = true -> String.prefix q s = true -> String.prefix p s = true.
Proof.
  intros Hp Hq. rewrite (prefix_split _ _ Hq), (prefix_split _ _ Hp).
  rewrite string_app_assoc. apply prefix_app.
Qed.

(** A pattern no longer than [p] sees only [p] of [p +:+ x]. *)
Lemma prefix_app_short q p x :
  String.length q <= String.length p ->
  String.prefix q (p +:+ x) = String.prefix q p.
Proof.
  revert p. induction q as [|a q IH]; intros p Hlen; [by rewrite !prefix_nil|].
  destruct p as [|b p]; [cbn in Hlen; lia|].
  rewrite string_app_cons, !prefix_cons.
  destruct (Ascii.ascii_dec a b); [|done]. apply IH. cbn in Hlen. lia.
Qed.

Lemma replace_unfold pat rep s :
  Js.replace pat rep s
  = if String.prefix pat s then rep +:+ Js.drop (String.length pat) s
    else match s with
         | EmptyString => EmptyString
         | String c s' => String c (Js.replace pat rep s')
         end.
Proof. by destruct s. Qed.

Lemma includes_cons pat c s :
  Js.includes pat (String c s) = String.prefix pat (String c s) || Js.includes pat s.
Proof. reflexivity. Qed.

Lemma occurrences_cons pat c s :
  Js.occurrences pat (String c s)
  = (if String.prefix pat (String c s) then 1 else 0) + Js.occurrences pat s.
Proof. reflexivity. Qed.

Lemma includes_false_occurrences pat s :
  Js.includes pat s = false -> Js.occurrences pat s = 0.
Proof.
  induction s as [|c s IH].
  - cbn. rewrite orb_false_r. by intros ->.
  - rewrite includes_cons, occurrences_cons. intros [-> H]%orb_false_iff.
    by rewrite IH.
Qed.

Lemma includes_app_r pat a b :
  Js.includes pat (a +:+ b) = false -> Js.includes pat b = false.
Proof.
  induction a as [|c a IH]; [done|].
  rewrite string_app_cons, includes_cons. intros [_ H]%orb_false_iff. by apply IH.
Qed.

Section Replace.

Variables pat rep : string.
Hypothesis rep_starts_with_pat : String.prefix pat rep = true.

(** The replacement leaves alone what a pattern no longer than [pat]
    sees at the start of the string. *)
Lemma prefix_replace s q :
  String.length q <= String.length pat ->
  String.prefix q (Js.replace pat rep s) = String.prefix q s.
Proof.
  revert q. induction s as [|c s IH]; intros q Hlen; rewrite replace_unfold.
  - destruct (String.prefix pat "") eqn:Hp; [|done].
    apply prefix_empty_inv in Hp. rewrite Hp in Hlen.
    destruct q; [by rewrite !prefix_nil|cbn in Hlen; lia].
  - destruct (String.prefix pat (String c s)) eqn:Hp.
    + rewrite (prefix_split _ _ Hp) at 2.
      rewrite (prefix_split _ _ rep_starts_with_pat), string_app_assoc.
      by rewrite !prefix_app_short.
    + destruct q as [|a q]; [by rewrite !prefix_nil|].
      rewrite !prefix_cons. destruct (Ascii.ascii_dec a c); [|done].
      apply IH. cbn in Hlen. lia.
Qed.

(** The first occurrence of [pat] is the one that is replaced. *)
Lemma replace_first_occurrence s :
  Js.includes pat s = true ->
  exists pre post,
    s = pre +:+ pat +:+ post
    /\ Js.replace pat rep s = pre +:+ rep +:+ post
    /\ (forall pre' post', s = pre' +:+ pat +:+ post' ->
          String.length pre <= String.length pre').
Proof.
  induction s as [|c s IH]; intros Hin.
  - rewrite includes_nil in Hin.
    exists "", "". rewrite replace_unfold, Hin.
    apply prefix_empty_inv in Hin. rewrite Hin.
    split; [done|]. split; [done|]. intros; cbn; lia.
  - rewrite replace_unfold. rewrite includes_cons in Hin.
    destruct (String.prefix pat (String c s)) eqn:Hp.
    + exists "", (Js.drop (String.length pat) (String c s)).
      split; [by apply prefix_split|]. split; [done|]. intros; cbn; lia.
    + destruct (IH Hin) as (pre & post & Hs & Hr & Hmin).
      exists (String c pre), post. rewrite !string_app_cons, <- Hs, <- Hr.
      split; [done|]. split; [done|].
      intros [|c' pre'] post' Heq.
      * rewrite string_app_nil_l in Heq. rewrite Heq, prefix_app in Hp. discriminate.
      * rewrite string_app_cons in Heq. injection Heq as _ Heq.
        cbn. apply Hmin in Heq. lia.
Qed.

End Replace.

Lemma string_app_length (a b : string) :
  String.length (a +:+ b) = String.length a + String.length b.
Proof.
  induction a as [|c a IH]; [reflexivity|].
  rewrite string_app_cons. cbn [String.length]. by rewrite IH.
Qed.

Lemma occurrences_unfold pat s :
  Js.occurrences pat s
  = (if String.prefix pat s then 1 else 0)
    + match s with
      | EmptyString => 0
      | String _ s' => Js.occurrences pat s'
      end.
Proof. by destruct s. Qed.

Section Occurrences.

Variables pat rep : string.
Hypothesis rep_starts_with_pat : String.prefix pat rep = true.

(** Before the first occurrence of [pat] there is no occurrence of
    [rep] in the result. *)
Lemma occurrences_before_first pre post :
  (forall pre' post', pre +:+ pat +:+ post = pre' +:+ pat +:+ post' ->
     String.length pre <= String.length pre') ->
  Js.occurrences rep (pre +:+ rep +:+ post) = Js.occurrences rep (rep +:+ post).
Proof.
  induction pre as [|c pre IH]; intros Hmin; [reflexivity|].
  rewrite string_app_cons, occurrences_cons.
  destruct (String.prefix rep (String c (pre +:+ rep +:+ post))) eqn:Hp.
  - exfalso.
    apply (prefix_trans _ _ _ rep_starts_with_pat) in Hp.
    rewrite (prefix_split _ _ rep_starts_with_pat) in Hp.
    rewrite <- string_app_cons, string_app_assoc, <- string_app_assoc in Hp.
    rewrite prefix_app_short in Hp
      by (rewrite string_app_length; lia).
    rewrite <- (prefix_app_short _ _ post) in Hp
      by (rewrite string_app_length; lia).
    apply prefix_split in Hp. rewrite string_app_assoc in Hp.
    specialize (Hmin "" _ Hp). cbn in Hmin. lia.
  - rewrite IH; [done|]. intros pre' post' Heq.
    specialize (Hmin (String c pre') post').
    rewrite !string_app_cons, Heq in Hmin. specialize (Hmin eq_refl).
    cbn in Hmin. lia.
Qed.

End Occurrences.

(** Right after the inserted flag, the next place where the flagged
    segment can start again is the slash that ends the flag. *)
Lemma occurrences_after_flag post :
  Js.occurrences "/upload/fl_attachment/" ("/upload/fl_attachment/" +:+ post)
  = 1 + Js.occurrences "/upload/fl_attachment/" ("/" +:+ post).
Proof.
  rewrite occurrences_unfold, prefix_app. reflexivity.
Qed.

(** ** The download URL (C9) *)

(** C9 as stated fails: a URL that has the flagged segment after its
    first [/upload/] gets a second one. *)
Lemma download_url_flag_twice :
  Js.includes "/upload/" Sample.flagged_url = true
  /\ Client.downloadUrl Sample.flagged_url
     = "https://res.cloudinary.com/demo/image/upload/fl_attachment/v1/thumbnails/upload/fl_attachment/x.png"
  /\ Js.occurrences "/upload/fl_attachment/" (Client.downloadUrl Sample.flagged_url)
     = 2.
Proof. repeat split. Qed.

(** C9, amended.  For every URL that contains [/upload/], the download
    URL is the URL with [fl_attachment/] inserted right after its first
    [/upload/] and every other character unchanged; it contains
    [/upload/fl_attachment/] at the place of the insertion, and exactly
    once whenever the URL did not contain [/upload/fl_attachment/]
    already; both download helpers give that address to the link. *)
Theorem download_url_inserts_flag url :
  Js.includes "/upload/" url = true ->
  exists pre post,
    url = pre +:+ "/upload/" +:+ post
    /\ (forall pre' post', url = pre' +:+ "/upload/" +:+ post' ->
          String.length pre <= String.length pre')
    /\ Client.downloadUrl url = pre +:+ "/upload/fl_attachment/" +:+ post
    /\ Js.occurrences "/upload/fl_attachment/" (Client.downloadUrl url)
       = 1 + Js.occurrences "/upload/fl_attachment/" ("/" +:+ post)
    /\ (Js.includes "/upload/fl_attachment/" url = false ->
        Js.occurrences "/upload/fl_attachment/" (Client.downloadUrl url) = 1)
    /\ (forall id, fst <$> Client.handleDownload (Some url) id
                   = Some (Client.downloadUrl url))
    /\ (forall id, fst <$> Client.onDownload (Some (Some url, id))
                   = Some (Client.downloadUrl url)).
Proof.
  intros Hin.
  destruct (replace_first_occurrence "/upload/" "/upload/fl_attachment/" url Hin)
    as (pre & post & Hurl & Hrep & Hmin).
  exists pre, post. unfold Client.downloadUrl.
  assert (Hcount : Js.occurrences "/upload/fl_attachment/"
                     (Js.replace "/upload/" "/upload/fl_attachment/" url)
                   = 1 + Js.occurrences "/upload/fl_attachment/" ("/" +:+ post)).
  { rewrite Hrep, <- occurrences_after_flag.
    apply (occurrences_before_first "/upload/"); [reflexivity|].
    by rewrite <- Hurl. }
  assert (Htruthy : Js.truthy (Some url) = true).
  { destruct url; [discriminate Hin|reflexivity]. }
  split; [done|]. split; [done|]. split; [done|]. split; [done|].
  split; [|split].
  - intros Hno. rewrite Hcount.
    rewrite Hurl in Hno.
    change ("/upload/" +:+ post) with ("/upload" +:+ "/" +:+ post) in Hno.
    apply includes_app_r in Hno. apply includes_app_r in Hno.
    by rewrite (includes_false_occurrences _ _ Hno).
  - intros id. unfold Client.handleDownload. by rewrite Htruthy.
  - intros id. unfold Client.onDownload. by rewrite Htruthy.
Qed.

Lemma download_url_inserts_flag_witness :
  Js.includes "/upload/" Sample.stored_url = true
  /\ Client.downloadUrl Sample.stored_url
     = "https://res.cloudinary.com/demo/image/upload/fl_attachment/v1/thumbnails/abc.png"
  /\ Js.occurrences "/upload/fl_attachment/" (Client.downloadUrl Sample.stored_url) = 1.
Proof.
  split; [reflexivity|].
  destruct (download_url_inserts_flag Sample.stored_url eq_refl)
    as (pre & post & _ & _ & _ & _ & Honce & _).
  split; [reflexivity|]. apply Honce. reflexivity.
Defined.

(** ** Sequences of handler invocations *)

Lemma findById_fresh n l d :
  Forall (fun x => _id x < n) l -> _id d = n -> findById n (l ++ [d]) = Some d.
Proof.
  intros Hall Hd. induction Hall as [|x l Hx Hall IH]; simpl.
  - by rewrite Hd, Nat.eqb_refl.
  - destruct (Nat.eqb_spec (_id x) n); [lia|done].
Qed.

Lemma updateById_fresh n l d d' :
  Forall (fun x => _id x < n) l -> _id d = n -> updateById n d' (l ++ [d]) = l ++ [d'].
Proof.
  intros Hall Hd. induction Hall as [|x l Hx Hall IH]; simpl.
  - by rewrite Hd, Nat.eqb_refl.
  - destruct (Nat.eqb_spec (_id x) n); [lia|by rewrite IH].
Qed.

Lemma NoDup_ids_eq (l : list Thumbnail) d d' :
  NoDup (_id <$> l) -> d ∈ l -> d' ∈ l -> _id d = _id d' -> d = d'.
Proof.
  induction l as [|x l IH]; intros Hnd Hd Hd' Hid; [by mem_inv|].
  rewrite fmap_cons in Hnd. apply NoDup_cons in Hnd as [Hx Hnd].
  apply elem_of_cons in Hd as [->|Hd]; apply elem_of_cons in Hd' as [->|Hd'].
  - done.
  - destruct Hx. rewrite Hid. by apply list_elem_of_fmap_2.
  - destruct Hx. rewrite <- Hid. by apply list_elem_of_fmap_2.
  - by apply IH.
Qed.

(** Adding a document with the next identifier keeps the store well
    formed. *)
Lemma wf_snoc s d tr :
  wf s -> _id d = next_id s ->
  wf {| docs := docs s ++ [d]; next_id := S (next_id s); trace := tr |}.
Proof.
  intros [Hnd Hall] Hd. split; cbn [docs next_id].
  - rewrite fmap_app. apply NoDup_app. split; [done|]. split.
    + intros x Hx Hx'. cbn in Hx'. apply list_elem_of_singleton in Hx'.
      apply list_elem_of_fmap in Hx as (y & -> & Hy).
      rewrite Forall_forall in Hall. apply Hall in Hy. lia.
    + cbn. apply NoDup_singleton.
  - apply Forall_app. split.
    + eapply Forall_impl; [exact Hall|]. cbn. lia.
    + apply Forall_singleton. lia.
Qed.

(** What one run of the generate handler does to a well-formed store. *)
Lemma generate_step w req s :
  wf s -> step_ok s (fst (generateThumbnail w req s)).
Proof.
  intros Hwf. pose proof Hwf as [Hnd Hall]. unfold step_ok.
  assert (Hold : forall x d, _id x = next_id s ->
            d ∈ docs s ++ [x] -> _id d < next_id s -> d ∈ docs s).
  { intros x d Hx [Hd|Hd]%elem_of_app Hlt; [done|].
    apply list_elem_of_singleton in Hd as ->. lia. }
  generate_cases w req s s' out.
  1-3: split; [done|split; [done|split; [done|]]];
    exists []; rewrite app_nil_r; split; [done|split; [|cbn; lia]];
    intros b a Hin; by mem_inv.
  1-8: split; [by apply wf_snoc|
               split; [cbn; lia|
                       split; [intros d; by apply (Hold (created_doc req s uid))|]]];
    eexists; (split; [unfold after_upload, after_generate, after_create, emit;
                      cbn [trace]; rewrite <- ?app_assoc; reflexivity|]);
    (split; [|cbn; lia]); intros b a Hin; cbn [app] in Hin; by mem_inv.
  rewrite findById_fresh in * by done. simplify_eq.
  unfold after_save, after_upload, after_generate, after_create, emit;
    cbn [docs trace next_id].
  rewrite updateById_fresh by done.
  split; [by apply wf_snoc|split; [lia|split; [intros d; by apply Hold|]]].
  eexists. split; [rewrite <- !app_assoc; reflexivity|]. split.
  - intros b a Hin. cbn [app] in Hin. mem_inv. split; [cbn; lia|]. by repeat split.
  - intros id. cbn. destruct (Nat.eqb _ id); cbn; lia.
Qed.

(** What one run of the delete handler does to the state. *)
Lemma deleteThumbnail_shape w req s :
  let s' := fst (deleteThumbnail w req s) in
  s' = s
  \/ exists l1 d l2,
       docs s = l1 ++ d :: l2
       /\ s' = {| docs := l1 ++ l2; next_id := next_id s;
                  trace := trace s ++ [Deleted d] |}.
Proof.
  unfold deleteThumbnail, try_catch, bind, Thumbnail_findOneAndDelete.
  destruct (d_session_userId req) as [uid|]; [|by left].
  destruct (Js.truthy_string uid); [|by left].
  destruct (findOneAndDelete_result w (params_id req) uid); [|by left..].
  destruct (remove_first _ _) as [[d|] l'] eqn:Hr; [|by left].
  apply remove_first_Some in Hr as (l1 & l2 & Hl & -> & _).
  right. by exists l1, d, l2.
Qed.

Lemma step_ok_refl s : wf s -> step_ok s s.
Proof.
  intros Hwf. split; [done|split; [done|split; [done|]]].
  exists []. rewrite app_nil_r. split; [done|split; [|cbn; lia]].
  intros b a Hin. by mem_inv.
Qed.

Lemma delete_step w req s :
  wf s -> step_ok s (fst (deleteThumbnail w req s)).
Proof.
  intros Hwf. destruct (deleteThumbnail_shape w req s) as [->|(l1 & d & l2 & Hl & ->)];
    [by apply step_ok_refl|].
  destruct Hwf as [Hnd Hall]. rewrite Hl in Hnd, Hall.
  split; [|split; [done|split]]; cbn [docs next_id trace].
  - split; cbn [docs next_id].
    + rewrite fmap_app, fmap_cons in Hnd. rewrite fmap_app.
      apply NoDup_app in Hnd as (H1 & H2 & [_ H3]%NoDup_cons).
      apply NoDup_app. split; [done|]. split; [|done].
      intros x Hx Hx'. apply (H2 x Hx). by apply list_elem_of_further.
    + apply Forall_app in Hall as [H1 [_ H2]%Forall_cons]. by apply Forall_app.
  - intros x Hx _. rewrite Hl. rewrite elem_of_app in Hx. rewrite elem_of_app, elem_of_cons.
    tauto.
  - eexists. split; [done|]. split; [|cbn; lia].
    intros b a Hin. by mem_inv.
Qed.

Lemma saves_of_nil id tr :
  (forall b a, Saved b a ∈ tr -> _id b <> id) -> saves_of id tr = [].
Proof.
  induction tr as [|e tr IH]; intros H; [done|].
  unfold saves_of. cbn [omap list_omap]. fold (saves_of id tr).
  rewrite IH by (intros b a Hin; apply (H b a); by apply list_elem_of_further).
  destruct e as [| | |b a|]; try done.
  destruct (Nat.eqb_spec (_id b) id) as [Heq|]; [|done].
  destruct (H b a); [apply list_elem_of_here|done].
Qed.

Lemma step_ok_trans s0 s1 s2 : step_ok s0 s1 -> step_ok s1 s2 -> step_ok s0 s2.
Proof.
  intros (_ & Hn1 & Hd1 & new1 & Ht1 & Hs1 & Hc1)
         (Hwf2 & Hn2 & Hd2 & new2 & Ht2 & Hs2 & Hc2).
  split; [done|split; [lia|split]].
  - intros d Hd Hlt. apply Hd1; [|done]. apply Hd2; [done|lia].
  - exists (new1 ++ new2). split; [by rewrite Ht2, Ht1, app_assoc|]. split.
    + intros b a [Hin|Hin]%elem_of_app.
      * destruct (Hs1 b a Hin). split; [lia|done].
      * destruct (Hs2 b a Hin). split; [lia|done].
    + intros id. unfold saves_of. rewrite omap_app. fold (saves_of id new1).
      fold (saves_of id new2). rewrite length_app.
      destruct (decide (id < next_id s1)).
      * rewrite (saves_of_nil id new2); [cbn; specialize (Hc1 id); lia|].
        intros b a Hin. destruct (Hs2 b a Hin). lia.
      * rewrite (saves_of_nil id new1); [cbn; apply Hc2|].
        intros b a Hin. destruct (Hs1 b a Hin). lia.
Qed.

Lemma invoke_step i s : wf s -> step_ok s (invoke i s).
Proof. destruct i; [apply generate_step|apply delete_step]. Qed.

Lemma run_snoc calls i s : run (calls ++ [i]) s = invoke i (run calls s).
Proof. unfold run. by rewrite fold_left_app. Qed.

Lemma run_app c1 c2 s : run (c1 ++ c2) s = run c2 (run c1 s).
Proof. unfold run. by rewrite fold_left_app. Qed.

Lemma run_step calls s : wf s -> step_ok s (run calls s).
Proof.
  intros Hwf. induction calls as [|i calls IH] using rev_ind;
    [by apply step_ok_refl|].
  rewrite run_snoc. eapply step_ok_trans; [exact IH|].
  apply invoke_step. by destruct IH.
Qed.

(** ** One write per record (C2) *)

(** C2.  Over every sequence of handler invocations on a well-formed
    store: each record gets at most one write of [save]; every such write
    sets the image reference of a record that had none and at the same
    time turns the in-progress flag from true to false; and a record whose
    flag is false after some invocation has the same flag and the same
    image reference after every later invocation that still finds it. *)
Theorem image_reference_written_once calls s0 :
  wf s0 ->
  let s := run calls s0 in
  let new := new_events s0 s in
  (forall id, length (saves_of id new) <= 1)
  /\ (forall b a, Saved b a ∈ new ->
        _id a = _id b
        /\ isGenerating b = true /\ isGenerating a = false
        /\ image_url b = None /\ is_Some (image_url a))
  /\ (forall c1 c2 d d',
        calls = c1 ++ c2 ->
        d ∈ docs (run c1 s0) -> d' ∈ docs s -> _id d' = _id d ->
        isGenerating d = false ->
        isGenerating d' = false /\ image_url d' = image_url d).
Proof.
  intros Hwf. cbn zeta.
  destruct (run_step calls s0 Hwf) as (_ & _ & _ & new & Ht & Hs & Hc).
  unfold new_events. rewrite Ht, drop_app_length.
  split; [done|]. split; [intros b a Hin; by apply (Hs b a)|].
  intros c1 c2 d d' -> Hd Hd' Hid Hflag. rewrite run_app in Hd'.
  destruct (run_step c1 s0 Hwf) as (Hwf1 & _).
  destruct (run_step c2 _ Hwf1) as (_ & _ & Hold & _).
  pose proof Hwf1 as [Hnd Hall].
  assert (Hlt : _id d < next_id (run c1 s0)).
  { rewrite Forall_forall in Hall. by apply Hall. }
  assert (d' = d) as ->; [|done].
  apply (NoDup_ids_eq (docs (run c1 s0))); [done| |done|done].
  apply Hold; [done|lia].
Qed.

Lemma image_reference_written_once_witness :
  wf Sample.empty
  /\ length (saves_of 0 (new_events Sample.empty (run Sample.session Sample.empty))) <= 1
  /\ saves_of 0 (new_events Sample.empty (run Sample.session Sample.empty))
     = [ (Sample.doc_of 0 "u1",
          assign (Sample.doc_of 0 "u1") (Some Sample.stored_url) false) ].
Proof.
  assert (Hwf : wf Sample.empty) by (split; constructor).
  split; [exact Hwf|]. split; [|reflexivity].
  apply (image_reference_written_once Sample.session Sample.empty Hwf).
Defined.

(** * Further properties of the handlers *)

(** ** Requests without a session *)

(** X1.  A generate request whose session has no user, or an empty one,
    is answered with status 401 and the message Unauthorized; nothing is
    written to the store and neither the provider nor the media host is
    called, whatever the body holds. *)
Theorem generate_without_session_has_no_effect w req s :
  Js.truthy (g_session_userId req) = false ->
  generateThumbnail w req s
  = (s, Resolved {| status := 401; json := MessageBody (Some "Unauthorized") |}).
Proof.
  intros Hs. generate_cases w req s s' out; try done.
  all: match goal with H : authenticated _ _ |- _ =>
         apply authenticated_truthy in H; congruence end.
Qed.

Lemma generate_without_session_has_no_effect_witness :
  Js.truthy (g_session_userId Scenario.anonymous) = false
  /\ generateThumbnail Sample.one_image Scenario.anonymous Sample.two_owners
     = (Sample.two_owners,
        Resolved {| status := 401; json := MessageBody (Some "Unauthorized") |}).
Proof.
  split; [reflexivity|].
  apply (generate_without_session_has_no_effect Sample.one_image Scenario.anonymous
           Sample.two_owners).
  reflexivity.
Defined.


(** X2.  A delete request whose session has no user, or an empty one, is
    answered with status 401 and the message Unauthorized, and the store
    is not asked to delete anything. *)
Theorem delete_without_session_has_no_effect w req s :
  Js.truthy (d_session_userId req) = false ->
  deleteThumbnail w req s
  = (s, Resolved {| status := 401; json := MessageBody (Some "Unauthorized") |}).
Proof.
  intros Hs. unfold deleteThumbnail, try_catch.
  destruct (d_session_userId req) as [uid|] eqn:Hu.
  - cbn in Hs. by rewrite Hs.
  - done.
Qed.

Lemma delete_without_session_has_no_effect_witness :
  Js.truthy (d_session_userId Scenario.anonymous_delete) = false
  /\ deleteThumbnail Sample.one_image Scenario.anonymous_delete Sample.two_owners
     = (Sample.two_owners,
        Resolved {| status := 401; json := MessageBody (Some "Unauthorized") |}).
Proof.
  split; [reflexivity|].
  apply (delete_without_session_has_no_effect Sample.one_image
           Scenario.anonymous_delete Sample.two_owners).
  reflexivity.
Defined.

(** ** Every error becomes an answer *)




(** ** The calls of one run *)

(** X4.  A run of the generate handler makes its outside calls at most
    once each and in one order: the creation of the record, the call of
    the provider with the built prompt, the upload, the save.  The trace
    it adds is an initial piece of that series; nothing is retried and
    nothing is deleted. *)
Theorem generate_calls_once_in_order w req s :
  let new := new_events s (fst (generateThumbnail w req s)) in
  new = []
  \/ exists doc,
       isGenerating doc = true /\ image_url doc = None /\ _id doc = next_id s
       /\ (new = [Created doc; GenerateContentCalled (generate_params req)]
           \/ (exists buf,
                 new = [Created doc; GenerateContentCalled (generate_params req);
                        UploadCalled upload_options buf])
           \/ (exists buf before after,
                 new = [Created doc; GenerateContentCalled (generate_params req);
                        UploadCalled upload_options buf; Saved before after])).
Proof.
  generate_cases w req s s' out; try (by left); right;
    exists (created_doc req s uid); (split; [done|split; [done|split; [done|]]]).
  all: try (by left).
  all: try (right; left; by eexists).
  right; right. by eexists _, _, _.
Qed.

(** ** The successful run *)

Lemma cooperative_upload w buf :
  cooperative w -> exists r, upload_result w upload_options buf = Resolved r.
Proof. intros (_ & _ & Hu & _). apply Hu. Qed.



(** X6.  On a well-formed store a run of the generate handler, whatever
    the outside calls do, leaves every record that was there in place and
    unchanged: the store is the same afterwards or has one more record at
    the end, with the next identifier. *)
Theorem generate_only_appends w req s :
  wf s ->
  let s' := fst (generateThumbnail w req s) in
  (docs s' = docs s /\ next_id s' = next_id s)
  \/ exists t, docs s' = docs s ++ [t] /\ _id t = next_id s
       /\ next_id s' = S (next_id s).
Proof.
  intros [_ Hall]. generate_cases w req s s' out; try (by left); right.
  all: try (by exists (created_doc req s uid)).
  rewrite findById_fresh in * by done. simplify_eq.
  eexists. unfold after_save, after_upload, after_generate, after_create, emit;
    cbn [docs next_id].
  rewrite updateById_fresh by done. by repeat split.
Qed.

Lemma generate_only_appends_witness :
  wf Sample.empty
  /\ ((docs (fst (generateThumbnail Sample.no_image Sample.request Sample.empty))
       = docs Sample.empty
       /\ next_id (fst (generateThumbnail Sample.no_image Sample.request Sample.empty))
          = next_id Sample.empty)
      \/ exists t,
           docs (fst (generateThumbnail Sample.no_image Sample.request Sample.empty))
           = docs Sample.empty ++ [t]
           /\ _id t = next_id Sample.empty
           /\ next_id (fst (generateThumbnail Sample.no_image Sample.request
                              Sample.empty))
              = S (next_id Sample.empty)).
Proof.
  assert (Hwf : wf Sample.empty) by (split; constructor).
  split; [exact Hwf|].
  apply (generate_only_appends Sample.no_image Sample.request Sample.empty Hwf).
Defined.

(** ** What a deletion removes *)

Lemma filter_all (p : Thumbnail -> bool) (l : list Thumbnail) :
  Forall (fun x => p x = true) l -> List.filter p l = l.
Proof.
  induction 1 as [|x l Hx _ IH]; [done|]. cbn. by rewrite Hx, IH.
Qed.

Lemma filter_app_bool (p : Thumbnail -> bool) (l1 l2 : list Thumbnail) :
  List.filter p (l1 ++ l2) = List.filter p l1 ++ List.filter p l2.
Proof.
  induction l1 as [|x l1 IH]; [done|]. cbn. destruct (p x); cbn; by rewrite IH.
Qed.

(** With distinct identifiers, taking out the first match takes out every
    match. *)
Lemma remove_first_filter id uid (l : list Thumbnail) :
  NoDup (_id <$> l) ->
  snd (remove_first (matches id uid) l)
  = List.filter (fun d => negb (matches id uid d)) l.
Proof.
  intros Hnd. destruct (remove_first (matches id uid) l) as [[d|] l'] eqn:Hr; cbn.
  - apply remove_first_Some in Hr as (l1 & l2 & -> & -> & Hd & Hl1).
    rewrite fmap_app, fmap_cons in Hnd.
    apply NoDup_app in Hnd as (_ & _ & [Hd2 _]%NoDup_cons).
    rewrite !filter_app_bool. cbn. rewrite Hd. cbn.
    rewrite !filter_all; [done| |].
    + apply Forall_forall. intros x Hx.
      destruct (matches id uid x) eqn:Hm; [|done].
      apply matches_true in Hm as [Hm _]. apply matches_true in Hd as [Hd _].
      destruct Hd2. rewrite Hd, <- Hm. by apply list_elem_of_fmap_2.
    + eapply Forall_impl; [exact Hl1|]. cbn. by intros x ->.
  - apply remove_first_None in Hr as [-> Hall].
    rewrite filter_all; [done|]. eapply Forall_impl; [exact Hall|].
    cbn. by intros x ->.
Qed.

Lemma deleteThumbnail_docs w req s uid :
  authenticated (d_session_userId req) uid ->
  findOneAndDelete_result w (params_id req) uid = Resolved tt ->
  docs (fst (deleteThumbnail w req s))
  = snd (remove_first (matches (params_id req) uid) (docs s)).
Proof.
  intros Ha Hr. pose proof (deleteThumbnail_run w req s uid Ha) as Hrun.
  rewrite Hr in Hrun.
  destruct (remove_first _ _) as [[d|] l'] eqn:Hrm; rewrite Hrun; [done|].
  by apply remove_first_None in Hrm as [-> _].
Qed.

Lemma deleteThumbnail_docs_filter w req s uid :
  wf s ->
  authenticated (d_session_userId req) uid ->
  findOneAndDelete_result w (params_id req) uid = Resolved tt ->
  docs (fst (deleteThumbnail w req s))
  = List.filter
      (fun d => negb (Nat.eqb (_id d) (params_id req) && String.eqb (userId d) uid))
      (docs s).
Proof.
  intros [Hnd _] Ha Hr. rewrite (deleteThumbnail_docs w req s uid Ha Hr).
  by rewrite remove_first_filter.
Qed.

(** X7.  On a well-formed store, a delete request of an authenticated
    caller whose store call completes leaves exactly the records that are
    not both the requested one and the caller's own, in their order; when
    the store call is rejected or never returns, the store is as
    before. *)
Theorem delete_removes_exactly_the_match w req s uid :
  wf s ->
  authenticated (d_session_userId req) uid ->
  let s' := fst (deleteThumbnail w req s) in
  (findOneAndDelete_result w (params_id req) uid = Resolved tt ->
   docs s'
   = List.filter
       (fun d => negb (Nat.eqb (_id d) (params_id req) && String.eqb (userId d) uid))
       (docs s))
  /\ (findOneAndDelete_result w (params_id req) uid <> Resolved tt -> s' = s).
Proof.
  intros Hwf Ha. cbn zeta. split.
  - intros Hr. by apply deleteThumbnail_docs_filter.
  - intros Hr. pose proof (deleteThumbnail_run w req s uid Ha) as Hrun.
    destruct (findOneAndDelete_result w (params_id req) uid) as [[]|e|];
      [done|by rewrite Hrun..].
Qed.

Lemma delete_removes_exactly_the_match_witness :
  wf Sample.two_owners
  /\ authenticated (d_session_userId (Sample.delete_request "u1" 0)) "u1"
  /\ docs (fst (deleteThumbnail Sample.one_image (Sample.delete_request "u1" 0)
                  Sample.two_owners))
     = [Sample.doc_of 1 "u2"].
Proof.
  assert (Hwf : wf Sample.two_owners).
  { split; cbn.
    - repeat constructor; rewrite ?elem_of_cons, ?elem_of_nil; intros H;
        repeat destruct H as [H|H]; discriminate || done.
    - repeat constructor; cbn; lia. }
  assert (Ha : authenticated (d_session_userId (Sample.delete_request "u1" 0)) "u1")
    by (split; reflexivity).
  split; [exact Hwf|split; [exact Ha|]].
  apply (proj1 (delete_removes_exactly_the_match Sample.one_image
                  (Sample.delete_request "u1" 0) Sample.two_owners "u1" Hwf Ha)).
  reflexivity.
Defined.

Lemma filter_idem (p : Thumbnail -> bool) (l : list Thumbnail) :
  List.filter p (List.filter p l) = List.filter p l.
Proof.
  induction l as [|x l IH]; [done|]. cbn.
  destruct (p x) eqn:Hp; cbn; by rewrite ?Hp, IH.
Qed.

(** X8.  Deleting is idempotent on a well-formed store: when the same
    authenticated request is handled a second time, with the store call
    completing both times, the store is as after the first time and the
    answer is the same success answer. *)
Theorem delete_twice_is_delete_once w1 w2 req s uid :
  wf s ->
  authenticated (d_session_userId req) uid ->
  findOneAndDelete_result w1 (params_id req) uid = Resolved tt ->
  findOneAndDelete_result w2 (params_id req) uid = Resolved tt ->
  let once := deleteThumbnail w1 req s in
  let twice := deleteThumbnail w2 req (fst once) in
  docs (fst twice) = docs (fst once)
  /\ new_events (fst once) (fst twice) = []
  /\ snd twice = snd once.
Proof.
  intros Hwf Ha H1 H2. cbn zeta.
  pose proof (delete_step w1 req s Hwf) as (Hwf' & _).
  pose proof (deleteThumbnail_docs_filter w1 req s uid Hwf Ha H1) as Hd1.
  pose proof (deleteThumbnail_docs_filter w2 req _ uid Hwf' Ha H2) as Hd2.
  pose proof (deleteThumbnail_run w1 req s uid Ha) as Hrun1.
  pose proof (deleteThumbnail_run w2 req (fst (deleteThumbnail w1 req s)) uid Ha)
    as Hrun2.
  rewrite H1 in Hrun1. rewrite H2 in Hrun2.
  assert (Ho1 : snd (deleteThumbnail w1 req s) = Resolved deleted)
    by (destruct (remove_first _ (docs s)) as [[d|] l']; by rewrite Hrun1).
  split; [|split].
  - rewrite Hd2, Hd1. apply filter_idem.
  - destruct (remove_first _ _) as [[d|] l'] eqn:Hr in Hrun2; rewrite Hrun2; cbn [fst];
      [|apply new_events_same].
    apply remove_first_Some in Hr as (l1 & l2 & Hl & _ & Hm & _).
    assert (Hin : d ∈ docs (fst (deleteThumbnail w1 req s)))
      by (rewrite Hl, elem_of_app, elem_of_cons; tauto).
    rewrite Hd1 in Hin. apply list_elem_of_In, filter_In in Hin as [_ Hin].
    unfold matches in Hm. rewrite Hm in Hin. discriminate.
  - rewrite Ho1.
    destruct (remove_first _ _) as [[d|] l'] in Hrun2; by rewrite Hrun2.
Qed.

Lemma delete_twice_is_delete_once_witness :
  wf Sample.two_owners
  /\ authenticated (d_session_userId (Sample.delete_request "u1" 0)) "u1"
  /\ docs (fst (deleteThumbnail Sample.one_image (Sample.delete_request "u1" 0)
                  (fst (deleteThumbnail Sample.one_image
                          (Sample.delete_request "u1" 0) Sample.two_owners))))
     = docs (fst (deleteThumbnail Sample.one_image (Sample.delete_request "u1" 0)
                    Sample.two_owners)).
Proof.
  assert (Hwf : wf Sample.two_owners).
  { split; cbn.
    - repeat constructor; rewrite ?elem_of_cons, ?elem_of_nil; intros H;
        repeat destruct H as [H|H]; discriminate || done.
    - repeat constructor; cbn; lia. }
  assert (Ha : authenticated (d_session_userId (Sample.delete_request "u1" 0)) "u1")
    by (split; reflexivity).
  split; [exact Hwf|split; [exact Ha|]].
  apply (delete_twice_is_delete_once Sample.one_image Sample.one_image
           (Sample.delete_request "u1" 0) Sample.two_owners "u1" Hwf Ha);
    reflexivity.
Defined.

(** ** The two states of a record *)

Lemma generate_keeps_consistent w req s :
  wf s -> Forall consistent (docs s) ->
  Forall consistent (docs (fst (generateThumbnail w req s))).
Proof.
  intros [_ Hall] Hcons.
  generate_cases w req s s' out; try done.
  all: try (apply Forall_app; split; [done|]; apply Forall_singleton; by left).
  rewrite findById_fresh in * by done. simplify_eq.
  unfold after_save, after_upload, after_generate, after_create, emit; cbn [docs].
  rewrite updateById_fresh by done.
  apply Forall_app; split; [done|]. apply Forall_singleton. right. by split.
Qed.

Lemma delete_keeps_consistent w req s :
  Forall consistent (docs s) ->
  Forall consistent (docs (fst (deleteThumbnail w req s))).
Proof.
  intros Hcons.
  destruct (deleteThumbnail_shape w req s) as [->|(l1 & d & l2 & Hl & ->)]; [done|].
  cbn [docs]. rewrite Hl in Hcons.
  apply Forall_app in Hcons as [H1 [_ H2]%Forall_cons]. by apply Forall_app.
Qed.

Lemma run_keeps_consistent calls s0 :
  wf s0 -> Forall consistent (docs s0) -> Forall consistent (docs (run calls s0)).
Proof.
  intros Hwf Hcons. induction calls as [|i calls IH] using rev_ind; [done|].
  rewrite run_snoc. pose proof (run_step calls s0 Hwf) as (Hwf' & _).
  destruct i; cbn [invoke];
    [by apply generate_keeps_consistent|by apply delete_keeps_consistent].
Qed.

(** X9.  Over every sequence of handler invocations on a well-formed
    store, the records keep to two states: in progress without an image
    reference, or finished with one.  No invocation leaves a record that
    is finished without an image reference or in progress with one. *)
Theorem records_in_progress_or_finished calls s0 :
  wf s0 ->
  Forall consistent (docs s0) ->
  forall d, d ∈ docs (run calls s0) ->
    (isGenerating d = true /\ image_url d = None)
    \/ (isGenerating d = false /\ is_Some (image_url d)).
Proof.
  intros Hwf Hcons d Hd.
  pose proof (run_keeps_consistent calls s0 Hwf Hcons) as H.
  rewrite Forall_forall in H. by apply H.
Qed.

Lemma records_in_progress_or_finished_witness :
  wf Sample.empty
  /\ Forall consistent (docs Sample.empty)
  /\ ((isGenerating (Sample.doc_of 1 "u1") = true
       /\ image_url (Sample.doc_of 1 "u1") = None)
      \/ (isGenerating (Sample.doc_of 1 "u1") = false
          /\ is_Some (image_url (Sample.doc_of 1 "u1")))).
Proof.
  assert (Hwf : wf Sample.empty) by (split; constructor).
  assert (Hc : Forall consistent (docs Sample.empty)) by constructor.
  split; [exact Hwf|split; [exact Hc|]].
  apply (records_in_progress_or_finished
           [Generate Sample.one_image Sample.request;
            Generate Sample.no_image Sample.request]
           Sample.empty Hwf Hc).
  apply list_elem_of_further, list_elem_of_here.
Defined.

(** ** Only the first candidate counts *)

(** X10.  Of a response the handler reads the first candidate only.  When
    there is no candidate, or the first one has no content or no parts
    list, the handler answers that the response is invalid; when the
    first one has a parts list without an inline image, it answers that
    no image was returned, and nothing is uploaded, whatever the later
    candidates hold. *)
Theorem later_candidates_are_ignored w req s :
  let s' := fst (generateThumbnail w req s) in
  let out := snd (generateThumbnail w req s) in
  let new := new_events s s' in
  forall p r,
    GenerateContentCalled p ∈ new ->
    generateContent_result w p = Resolved (Some r) ->
    ((candidates r = None \/ candidates r = Some []
      \/ exists c cs, candidates r = Some (c :: cs)
           /\ (content c = None \/ content c = Some {| parts := None |})) ->
     out = Resolved {| status := 500;
                       json := FailureBody false "Invalid AI response" |}
     /\ uploads new = [])
    /\ (first_candidate_without_image r ->
        out = Resolved {| status := 500;
                          json := FailureBody false "No image returned from AI" |}
        /\ uploads new = []).
Proof.
  cbn zeta. intros p r Hin Hres. split.
  - intros Hc.
    assert (Hparts : response_parts (Some r) = None).
    { unfold response_parts.
      destruct Hc as [->|[->|(c & cs & -> & [Hc|Hc])]]; try done; cbn; by rewrite Hc. }
    revert Hin Hres. generate_cases w req s s' out; intros Hin Hres; mem_inv;
      same_outcome; try congruence. done.
  - intros (c & cs & ps & Hc & Hct & Hps).
    assert (Hparts : response_parts (Some r) = Some ps).
    { unfold response_parts. rewrite Hc. cbn. by rewrite Hct. }
    apply scan_parts_None in Hps.
    revert Hin Hres. generate_cases w req s s' out; intros Hin Hres; mem_inv;
      same_outcome; try congruence. done.
Qed.

Lemma later_candidates_are_ignored_witness :
  first_candidate_without_image Scenario.image_in_second_candidate
  /\ snd (generateThumbnail Scenario.second_candidate_world Sample.request Sample.empty)
     = Resolved {| status := 500;
                   json := FailureBody false "No image returned from AI" |}
  /\ uploads (new_events Sample.empty
                (fst (generateThumbnail Scenario.second_candidate_world
                        Sample.request Sample.empty)))
     = [].
Proof.
  assert (Hf : first_candidate_without_image Scenario.image_in_second_candidate)
    by (by eexists _, _, _).
  split; [exact Hf|].
  apply (later_candidates_are_ignored Scenario.second_candidate_world Sample.request
           Sample.empty (generate_params Sample.request)
           Scenario.image_in_second_candidate).
  - apply list_elem_of_further, list_elem_of_here.
  - reflexivity.
  - exact Hf.
Defined.

(** * Properties of the client pages *)

(** ** The form of the generate page *)

Lemma trimStart_blank s : JsString.blank s = true -> JsString.trimStart s = "".
Proof.
  induction s as [|c s IH]; [done|]. cbn.
  destruct (JsString.is_white_space c); [exact IH|discriminate].
Qed.

Lemma trimStart_not_blank s :
  JsString.blank s = false ->
  exists c t, JsString.trimStart s = String c t /\ JsString.is_white_space c = false.
Proof.
  induction s as [|c s IH]; [discriminate|]. cbn.
  destruct (JsString.is_white_space c) eqn:Hc; [exact IH|]. intros _. by exists c, s.
Qed.

Lemma trimEnd_keeps_head c t :
  JsString.is_white_space c = false ->
  Js.truthy_string (JsString.trimEnd (String c t)) = true.
Proof.
  intros Hc. cbn. rewrite Hc. by destruct (JsString.trimEnd t).
Qed.

(** A title passes [!title.trim()] exactly when it is not blank. *)
Lemma trim_truthy s :
  Js.truthy_string (JsString.trim s) = negb (JsString.blank s).
Proof.
  unfold JsString.trim. destruct (JsString.blank s) eqn:Hb.
  - by rewrite trimStart_blank.
  - destruct (trimStart_not_blank s Hb) as (c & t & -> & Hc).
    by rewrite trimEnd_keeps_head.
Qed.

(** X11.  The generate page posts a request only for a logged-in user
    and a title with at least one character that is not white space.
    Otherwise nothing is posted, the form is unchanged and a toast names
    the reason; when it posts, the page is set to loading and the body
    carries the title as typed (not trimmed), the other fields of the form
    and the text overlay switched on. *)
Theorem form_posts_only_with_login_and_title isLoggedIn st :
  (isLoggedIn = false ->
   GeneratePage.handleGenerate isLoggedIn st
   = (st, inl (ToastError "Please login to generate thumbnails")))
  /\ (isLoggedIn = true -> JsString.blank (GeneratePage.st_title st) = true ->
      GeneratePage.handleGenerate isLoggedIn st
      = (st, inl (ToastError "Title is required")))
  /\ (isLoggedIn = true -> JsString.blank (GeneratePage.st_title st) = false ->
      exists p,
        GeneratePage.handleGenerate isLoggedIn st
        = (GeneratePage.set_loading true st, inr p)
        /\ GeneratePage.p_title p = GeneratePage.st_title st
        /\ GeneratePage.p_prompt p = GeneratePage.st_additionalDetails st
        /\ GeneratePage.p_style p = GeneratePage.st_style st
        /\ GeneratePage.p_aspect_ratio p = GeneratePage.st_aspectRatio st
        /\ GeneratePage.p_color_scheme p = GeneratePage.st_colorSchemeId st
        /\ GeneratePage.p_text_overlay p = true).
Proof.
  unfold GeneratePage.handleGenerate. rewrite trim_truthy. split; [|split].
  - by intros ->.
  - by intros -> ->.
  - intros -> ->. cbn. eexists. by repeat split.
Qed.

Lemma form_posts_only_with_login_and_title_witness :
  JsString.blank (GeneratePage.st_title Scenario.blank_form) = true
  /\ GeneratePage.handleGenerate true Scenario.blank_form
     = (Scenario.blank_form, inl (ToastError "Title is required")).
Proof.
  split; [reflexivity|].
  apply (form_posts_only_with_login_and_title true Scenario.blank_form); reflexivity.
Defined.

(** ** The form and the style table *)

Lemma prompt_of_clauses req :
  prompt_of req
  = style_clause (body_style req) (body_title req)
    +:+ ((if Js.truthy (body_color_scheme req)
          then color_clause (body_color_scheme req) else "")
         +:+ (if Js.truthy (body_prompt req)
              then details_clause (body_prompt req) else "")
         +:+ closing_clause (aspect_ratio_of req)).
Proof.
  unfold prompt_of, build_prompt.
  destruct (Js.truthy (body_color_scheme req)), (Js.truthy (body_prompt req));
    by rewrite ?string_app_assoc.
Qed.

(** X12.  The style the form starts with, Bold and Graphic, is not a key
    of the server's style table (whose key is spelled with an ampersand).
    So a request posted without changing the style makes the server send
    a prompt that begins with the words Create a undefined thumbnail for,
    followed by the title in quotes. *)
Theorem initial_style_gives_undefined_prompt st session p w s pr :
  GeneratePage.st_style st = GeneratePage.st_style (GeneratePage.initial "") ->
  snd (GeneratePage.handleGenerate true st) = inr p ->
  GenerateContentCalled pr
    ∈ new_events s (fst (generateThumbnail w (GeneratePage.request_of session p) s)) ->
  exists rest,
    contents pr
    = [ ("Create a undefined thumbnail for "
         +:+ Js.dquote +:+ GeneratePage.st_title st +:+ Js.dquote +:+ ". ")
        +:+ rest ].
Proof.
  intros Hstyle Hp Hin.
  unfold GeneratePage.handleGenerate in Hp. cbn [negb] in Hp.
  destruct (negb _) in Hp; [discriminate|]. cbn in Hp. injection Hp as <-.
  revert Hin.
  generate_cases w (GeneratePage.request_of session
                      {| GeneratePage.p_title := GeneratePage.st_title st;
                         GeneratePage.p_prompt := GeneratePage.st_additionalDetails st;
                         GeneratePage.p_style := GeneratePage.st_style st;
                         GeneratePage.p_aspect_ratio := GeneratePage.st_aspectRatio st;
                         GeneratePage.p_color_scheme := GeneratePage.st_colorSchemeId st;
                         GeneratePage.p_text_overlay := true |}) s s' out;
    intros Hin; mem_inv.
  all: cbn [contents generate_params]; rewrite prompt_of_clauses;
    cbn [GeneratePage.request_of body_style body_title GeneratePage.p_style
           GeneratePage.p_title];
    rewrite Hstyle; eexists; reflexivity.
Qed.

Lemma initial_style_gives_undefined_prompt_witness :
  GeneratePage.st_style Scenario.typed_form
  = GeneratePage.st_style (GeneratePage.initial "")
  /\ snd (GeneratePage.handleGenerate true Scenario.typed_form)
     = inr Scenario.typed_payload
  /\ exists rest,
       contents (generate_params
                   (GeneratePage.request_of (Some "u1") Scenario.typed_payload))
       = [ ("Create a undefined thumbnail for "
            +:+ Js.dquote +:+ "10 sleep tips" +:+ Js.dquote +:+ ". ")
           +:+ rest ].
Proof.
  split; [reflexivity|split; [reflexivity|]].
  apply (initial_style_gives_undefined_prompt Scenario.typed_form (Some "u1")
           Scenario.typed_payload Sample.one_image Sample.empty).
  - reflexivity.
  - reflexivity.
  - apply list_elem_of_further, list_elem_of_here.
Defined.

(** ** The answers of the server on the pages *)

Lemma message_or_not_empty e fallback :
  fallback <> "" -> message_or e fallback <> "".
Proof.
  intros Hf. unfold message_or. destruct (message e) as [[|c m]|]; done.
Qed.

Lemma or_else_not_empty (m d : string) : m <> "" -> JsString.or_else (Some m) d = m.
Proof. by destruct m. Qed.

(** X13.  Every answer of the generate handler reaches the form with the
    server's own words.  An answer with status 200 carries the record:
    the form shows the toast Generation started! and moves to the page of
    that record.  Any other answer (401 or 500) carries a message that is
    not empty: the form stops loading and shows that message, so its own
    text Something went wrong is never shown for an answer of this
    handler. *)
Theorem generate_answer_on_the_form w req s r st :
  snd (generateThumbnail w req s) = Resolved r ->
  let shown := GeneratePage.handleGenerate_done (Api.deliver r) st in
  (status r = 200 ->
   exists t, json r = ThumbnailBody true t
     /\ shown = (st, Some (ToastSuccess "Generation started!"), Some (_id t)))
  /\ (status r <> 200 ->
      exists msg, msg <> "" /\ Api.data_message (json r) = Some msg
        /\ shown = (GeneratePage.set_loading false st, Some (ToastError msg), None)).
Proof.
  cbn zeta. generate_cases w req s s' out; intros [= <-]; split; intros Hs;
    try discriminate Hs; try (by destruct Hs).
  all: try (exists "Unauthorized"; split; [done|split; reflexivity]).
  all: try (match goal with
            | |- context [generate_failed ?e] =>
                exists (message_or e "Failed to generate thumbnail")
            end;
            split; [by apply message_or_not_empty|];
            split; [reflexivity|];
            unfold GeneratePage.handleGenerate_done, Api.deliver; cbn;
            first [ reflexivity
                  | rewrite or_else_not_empty;
                    [reflexivity|by apply message_or_not_empty] ]).
  eexists. split; reflexivity.
Qed.

Lemma generate_answer_on_the_form_witness :
  snd (generateThumbnail (Sample.provider_fails Sample.quota_error) Sample.request
         Sample.empty)
  = Resolved (generate_failed Sample.quota_error)
  /\ exists msg, msg <> ""
       /\ Api.data_message (json (generate_failed Sample.quota_error)) = Some msg
       /\ GeneratePage.handleGenerate_done
            (Api.deliver (generate_failed Sample.quota_error)) Scenario.typed_form
          = (GeneratePage.set_loading false Scenario.typed_form,
             Some (ToastError msg), None).
Proof.
  split; [reflexivity|].
  apply (generate_answer_on_the_form (Sample.provider_fails Sample.quota_error)
           Sample.request Sample.empty (generate_failed Sample.quota_error)
           Scenario.typed_form).
  - reflexivity.
  - discriminate.
Defined.

(** ** The gallery and the store *)

Lemma owned_after_delete id uid (l : list Thumbnail) :
  owned uid
    (List.filter (fun d => negb (Nat.eqb (_id d) id && String.eqb (userId d) uid)) l)
  = List.filter (fun t => negb (Nat.eqb (_id t) id)) (owned uid l).
Proof.
  unfold owned. induction l as [|x l IH]; [done|]. cbn.
  destruct (Nat.eqb (_id x) id) eqn:Hid, (String.eqb (userId x) uid) eqn:Hu;
    cbn; rewrite ?Hid, ?Hu; cbn; by rewrite IH.
Qed.

(** X14.  The gallery stays in step with the store.  When the list of
    the page holds the caller's records in the order of a well-formed
    store, and the user confirms the deletion of one of them, then after
    the delete handler has answered, the list of the page again holds the
    caller's records of the store: the record is gone from both after a
    success answer, and both are unchanged after a failure answer.  The
    toast is the success message of the server, or the error's message,
    or Failed to delete when the error has none. *)
Theorem gallery_follows_the_store w req s uid r :
  wf s ->
  authenticated (d_session_userId req) uid ->
  snd (deleteThumbnail w req s) = Resolved r ->
  let s' := fst (deleteThumbnail w req s) in
  let page := Gallery.handleDelete true (Api.deliver r) (owned uid (docs s))
                (params_id req) in
  fst page = owned uid (docs s')
  /\ (status r = 200 ->
      snd page = Some (ToastSuccess "Thumbnail deleted successfully"))
  /\ (status r <> 200 ->
      exists e, findOneAndDelete_result w (params_id req) uid = Rejected e
        /\ snd page = Some (ToastError (JsString.or_else (message e) "Failed to delete"))).
Proof.
  intros Hwf Ha Hout. cbn zeta.
  pose proof (deleteThumbnail_docs_filter w req s uid Hwf Ha) as Hres.
  pose proof (deleteThumbnail_run w req s uid Ha) as Hrun.
  destruct (findOneAndDelete_result w (params_id req) uid) as [[]|e|] eqn:Hr.
  - assert (r = deleted) as ->.
    { destruct (remove_first _ _) as [[d|] l']; rewrite Hrun in Hout;
        by injection Hout as <-. }
    rewrite (Hres eq_refl). cbn. split; [by rewrite owned_after_delete|].
    split; [done|]. intros H. by destruct H.
  - rewrite Hrun in Hout. injection Hout as <-. rewrite Hrun. cbn.
    split; [done|]. split; [discriminate|]. intros _. by exists e.
  - rewrite Hrun in Hout. discriminate.
Qed.

Lemma gallery_follows_the_store_witness :
  wf Sample.two_owners
  /\ authenticated (d_session_userId (Sample.delete_request "u1" 0)) "u1"
  /\ snd (deleteThumbnail Sample.one_image (Sample.delete_request "u1" 0)
            Sample.two_owners)
     = Resolved deleted
  /\ fst (Gallery.handleDelete true (Api.deliver deleted)
            (owned "u1" (docs Sample.two_owners)) 0)
     = owned "u1"
         (docs (fst (deleteThumbnail Sample.one_image (Sample.delete_request "u1" 0)
                       Sample.two_owners))).
Proof.
  assert (Hwf : wf Sample.two_owners).
  { split; cbn.
    - repeat constructor; rewrite ?elem_of_cons, ?elem_of_nil; intros H;
        repeat destruct H as [H|H]; discriminate || done.
    - repeat constructor; cbn; lia. }
  assert (Ha : authenticated (d_session_userId (Sample.delete_request "u1" 0)) "u1")
    by (split; reflexivity).
  split; [exact Hwf|split; [exact Ha|split; [reflexivity|]]].
  apply (gallery_follows_the_store Sample.one_image (Sample.delete_request "u1" 0)
           Sample.two_owners "u1" deleted Hwf Ha eq_refl).
Defined.

(** X15.  The gallery shows the records of a store that the handlers
    have worked on as follows: one card per record, in the order of the
    store, or the empty notice when there is none; a record in progress is
    drawn with the text Processing AI... under the Generating overlay; a
    finished record whose address is not empty is drawn with its image and
    without the overlay.  The overlay is on exactly for the records
    without an image reference. *)
Theorem gallery_of_store_records calls s0 uid :
  wf s0 ->
  Forall consistent (docs s0) ->
  let l := owned uid (docs (run calls s0)) in
  (l = [] -> Gallery.render false l = [Gallery.EmptyRegion])
  /\ (l <> [] -> Gallery.render false l = [Gallery.Grid (Gallery.card <$> l)])
  /\ Gallery.card_key <$> (Gallery.card <$> l) = _id <$> l
  /\ forall t, t ∈ l ->
       (Gallery.overlay (Gallery.card t) = true <-> image_url t = None)
       /\ (image_url t = None ->
           Gallery.picture (Gallery.card t) = Gallery.Placeholder "Processing AI...")
       /\ (forall url, image_url t = Some url -> url <> "" ->
             Gallery.picture (Gallery.card t) = Gallery.Img url (title t)).
Proof.
  intros Hwf Hcons. cbn zeta. split; [|split; [|split]].
  - by intros ->.
  - intros Hl. by destruct (owned uid _).
  - rewrite <- list_fmap_compose. by apply list_fmap_ext.
  - intros t Ht. unfold owned in Ht.
    apply list_elem_of_In, filter_In in Ht as [Ht%list_elem_of_In _].
    pose proof (run_keeps_consistent calls s0 Hwf Hcons) as Hall.
    rewrite Forall_forall in Hall.
    destruct (Hall t Ht) as [[Hg Hi]|[Hg [url Hi]]];
      unfold Gallery.card; cbn; rewrite Hg, Hi.
    + split; [done|]. split; [done|]. by intros url [= ].
    + split; [by split|]. split; [done|].
      intros url' [= <-] Hne. by destruct url.
Qed.

Lemma gallery_of_store_records_witness :
  wf Sample.empty
  /\ Forall consistent (docs Sample.empty)
  /\ Gallery.picture (Gallery.card (Sample.doc_of 1 "u1"))
     = Gallery.Placeholder "Processing AI...".
Proof.
  assert (Hwf : wf Sample.empty) by (split; constructor).
  assert (Hc : Forall consistent (docs Sample.empty)) by constructor.
  split; [exact Hwf|split; [exact Hc|]].
  destruct (gallery_of_store_records
              [Generate Sample.one_image Sample.request;
               Generate Sample.no_image Sample.request]
              Sample.empty "u1" Hwf Hc) as (_ & _ & _ & Hcard).
  destruct (Hcard (Sample.doc_of 1 "u1")) as (_ & Hp & _).
  - apply list_elem_of_further, list_elem_of_here.
  - apply Hp. reflexivity.
Defined.

(** ** The preview panel *)

(** X16.  The preview panel shows exactly one of its three views: the
    loading view while loading, whatever the thumbnail is; otherwise the
    image view when the thumbnail has an address that is not empty, with
    that address as source; otherwise the empty view. *)
Theorem preview_shows_one_view thumbnail isLoading :
  exists v,
    PreviewPanel.views thumbnail isLoading = [v]
    /\ (v = PreviewPanel.LoadingView <-> isLoading = true)
    /\ (v = PreviewPanel.EmptyView <->
        isLoading = false /\ Js.truthy (PreviewPanel.image_of thumbnail) = false)
    /\ ((exists alt, v = PreviewPanel.ImageView
                           (Js.template (PreviewPanel.image_of thumbnail)) alt) <->
        isLoading = false /\ Js.truthy (PreviewPanel.image_of thumbnail) = true).
Proof.
  unfold PreviewPanel.views.
  destruct isLoading, (Js.truthy (PreviewPanel.image_of thumbnail)) eqn:Ht;
    cbn; eexists; (split; [reflexivity|]).
  all: split; [|split]; split; try done; try (by intros [? ?]);
    try (by intros [? [=]]); try (intros _; by eexists).
Qed.

Lemma preview_shows_one_view_witness :
  exists v,
    PreviewPanel.views (Some (Sample.doc_of 0 "u1")) false = [v]
    /\ v = PreviewPanel.EmptyView.
Proof.
  destruct (preview_shows_one_view (Some (Sample.doc_of 0 "u1")) false)
    as (v & Hv & _ & Hempty & _).
  exists v. split; [exact Hv|]. apply Hempty. split; reflexivity.
Defined.

(** ** Polling *)

Lemma poll_snoc dc results r st :
  GeneratePage.poll dc (results ++ [r]) st
  = fst (GeneratePage.fetchThumbnail dc r (GeneratePage.poll dc results st)).
Proof. unfold GeneratePage.poll. by rewrite fold_left_app. Qed.

(** X17.  After a series of fetches the generate page depends on the
    last answer only.  A failed fetch, or an answer whose thumbnail has an
    address that is not empty, ends the loading state, so the interval is
    not armed again, and in the second case the preview shows the image.
    An answer without thumbnail or without address keeps the page loading
    and the preview on its loading view, and the interval is armed again
    whenever the user is logged in and the page has a record id. *)
Theorem polling_follows_the_last_answer dc results r st :
  let st' := GeneratePage.poll dc (results ++ [r]) st in
  let view := PreviewPanel.views (GeneratePage.st_thumbnail st')
                (GeneratePage.st_loading st') in
  (forall d, r = Api.Failed d ->
     GeneratePage.st_loading st' = false
     /\ forall id isLoggedIn,
          GeneratePage.effect_polls id (GeneratePage.st_loading st') isLoggedIn = false)
  /\ (forall data t url,
        r = Api.Ok data -> Api.data_thumbnail data = Some t ->
        image_url t = Some url -> url <> "" ->
        GeneratePage.st_loading st' = false
        /\ (forall id isLoggedIn,
              GeneratePage.effect_polls id (GeneratePage.st_loading st') isLoggedIn
              = false)
        /\ view = [PreviewPanel.ImageView url
                     (JsString.or_else (title t) "Thumbnail preview")])
  /\ (forall data,
        r = Api.Ok data ->
        Js.truthy (GeneratePage.field image_url (Api.data_thumbnail data)) = false ->
        GeneratePage.st_loading st' = true
        /\ (forall id isLoggedIn,
              GeneratePage.effect_polls id (GeneratePage.st_loading st') isLoggedIn
              = Js.truthy id && isLoggedIn)
        /\ view = [PreviewPanel.LoadingView]).
Proof.
  cbn zeta. rewrite poll_snoc. split; [|split].
  - intros d ->. cbn. split; [done|]. intros id li. unfold GeneratePage.effect_polls.
    cbn. by rewrite andb_false_r.
  - intros data t url -> Ht Hu Hne. cbn. rewrite Ht. cbn. rewrite Hu.
    assert (Js.truthy (Some url) = true) as Htr by (by destruct url).
    rewrite Htr. cbn. split; [done|]. split; [|done].
    intros id li. unfold GeneratePage.effect_polls. by rewrite andb_false_r.
  - intros data -> Hf. cbn. rewrite Hf. cbn. split; [done|]. split; [|done].
    intros id li. unfold GeneratePage.effect_polls. by rewrite andb_true_r.
Qed.

Lemma polling_follows_the_last_answer_witness :
  GeneratePage.st_loading
    (GeneratePage.poll "vibrant"
       ([Api.Ok (ThumbnailBody true (Sample.doc_of 0 "u1"))]
        ++ [Api.Failed None]) Scenario.typed_form)
  = false.
Proof.
  destruct (polling_follows_the_last_answer "vibrant"
              [Api.Ok (ThumbnailBody true (Sample.doc_of 0 "u1"))] (Api.Failed None)
              Scenario.typed_form) as (Hfailed & _).
  destruct (Hfailed None eq_refl) as [Hloading _]. exact Hloading.
Defined.

Lemma poll_replicate_in_progress dc t n st :
  image_url t = None ->
  GeneratePage.st_loading
    (GeneratePage.poll dc (replicate (S n) (Api.Ok (ThumbnailBody true t))) st)
  = true
  /\ GeneratePage.st_thumbnail
       (GeneratePage.poll dc (replicate (S n) (Api.Ok (ThumbnailBody true t))) st)
     = Some t.
Proof.
  intros Hi. induction n as [|n IH].
  - cbn. by rewrite Hi.
  - rewrite replicate_S_end, poll_snoc. cbn. by rewrite Hi.
Qed.

(** X18.  A record that a failed generation left behind keeps a page
    polling for ever.  When the generate handler answers with status 500
    after it created a record, that record is in the store without an
    image reference; however often the page then fetches it, the page
    stays loading, the preview stays on its loading view, and for a
    logged-in user on the page of the record the interval is armed
    again. *)
Theorem failed_generation_polls_for_ever w req s r doc dc n st id :
  snd (generateThumbnail w req s) = Resolved r ->
  status r = 500 ->
  Created doc ∈ new_events s (fst (generateThumbnail w req s)) ->
  Js.truthy id = true ->
  let st' := GeneratePage.poll dc (replicate (S n) (Api.Ok (ThumbnailBody true doc))) st in
  doc ∈ docs (fst (generateThumbnail w req s))
  /\ image_url doc = None
  /\ GeneratePage.st_loading st' = true
  /\ GeneratePage.effect_polls id (GeneratePage.st_loading st') true = true
  /\ PreviewPanel.views (GeneratePage.st_thumbnail st') (GeneratePage.st_loading st')
     = [PreviewPanel.LoadingView].
Proof.
  intros Hout Hst Hin Hid. cbn zeta.
  assert (Hdoc : doc ∈ docs (fst (generateThumbnail w req s)) /\ image_url doc = None).
  { revert Hout Hin. generate_cases w req s s' out; intros [= <-] Hin; mem_inv;
      try discriminate Hst.
    all: split; [|done];
      unfold after_upload, after_generate, after_create, emit; cbn [docs];
      apply elem_of_app; right; apply list_elem_of_here. }
  destruct Hdoc as [Hdoc Himg].
  destruct (poll_replicate_in_progress dc doc n st Himg) as [-> ->].
  split; [done|]. split; [done|]. split; [done|]. split; [|done].
  unfold GeneratePage.effect_polls. by rewrite Hid.
Qed.

Lemma failed_generation_polls_for_ever_witness :
  snd (generateThumbnail Sample.no_image Sample.request Sample.empty)
  = Resolved (generate_failed (Error (Some "No image returned from AI")))
  /\ GeneratePage.st_loading
       (GeneratePage.poll "vibrant"
          (replicate 3 (Api.Ok (ThumbnailBody true (Sample.doc_of 0 "u1"))))
          Scenario.typed_form)
     = true.
Proof.
  split; [reflexivity|].
  apply (failed_generation_polls_for_ever Sample.no_image Sample.request Sample.empty
           (generate_failed (Error (Some "No image returned from AI")))
           (Sample.doc_of 0 "u1") "vibrant" 2 Scenario.typed_form (Some "0")).
  - reflexivity.
  - reflexivity.
  - apply list_elem_of_here.
  - reflexivity.
Defined.

(** ** The frames of a record *)



(** ** The session cookie *)

(** X20.  The session cookie is never sent with SameSite none unless it
    is also Secure: both are switched on together, exactly when NODE_ENV
    is the text production; for every other value, and without one, the
    cookie is SameSite lax and not Secure. *)
Theorem cookie_none_only_with_secure node_env :
  (Server.sameSite (Server.cookie node_env) = Server.SameSiteNone <->
   Server.secure (Server.cookie node_env) = true)
  /\ (Server.secure (Server.cookie node_env) = true <-> node_env = Some "production")
  /\ (node_env <> Some "production" ->
      Server.sameSite (Server.cookie node_env) = Server.SameSiteLax).
Proof.
  unfold Server.cookie, Server.is_production; cbn.
  destruct node_env as [e|]; [|by repeat split].
  destruct (String.eqb_spec e "production") as [->|Hne]; repeat split; try done.
  all: intros; congruence.
Qed.

Lemma cookie_none_only_with_secure_witness :
  Some "development" <> Some "production"
  /\ Server.sameSite (Server.cookie (Some "development")) = Server.SameSiteLax
  /\ Server.secure (Server.cookie (Some "production")) = true.
Proof.
  split; [discriminate|]. split.
  - apply (cookie_none_only_with_secure (Some "development")). discriminate.
  - apply (cookie_none_only_with_secure (Some "production")). reflexivity.
Defined.
